(** * mcplates: the Von Mises-Fisher distribution on the sphere

    A shallow embedding of [mcplates/von_mises_fisher.py] and the
    properties its specification states about it.

    Numbers.  The program computes in IEEE double precision; the
    embedding computes in the real numbers of the Standard Library.
    Every statement below is therefore a statement about the exact
    arithmetic the program approximates: rounding, NaN, signed zeros and
    overflow are outside the model.  Two consequences are worth keeping
    in mind when reading the definitions: division and square root are
    total in [R] (where numpy would produce [inf] or [nan]), so a
    theorem that relies on a denominator being non-zero or a radicand
    being non-negative proves that fact first.

    One edge is decided by rounding and is kept out of the statements
    on sampling.  In exact arithmetic the z coordinate of line 79 is at
    least -1, with equality at the draw 0.  In doubles, for a draw
    within rounding of 0 (2^-53, say, at kappa 0.1) the same line
    evaluates to -1.0000000000000004, the radicand of line 84 is
    negative and the sample is nan.  The statements below that speak of
    ranges or finite values of samples therefore assume the draws for z
    to be at least [draw_margin]; see [draws_clear_of_edge].

    Libraries.  numpy, scipy, theano and pymc3 are not part of the
    repository.  The handful of their functions the program calls are
    modelled in the modules [Np], [St], [Tt] and [Pm] from their
    documented behaviour, each next to the call it stands for. *)

From Stdlib Require Import Reals Lra Lia List Bool Arith RNsatz.
Import ListNotations.
Open Scope R_scope.

(** * Python outcomes *)

Inductive exn : Type := TypeError | ValueError | AssertionError.

Inductive result (A : Type) : Type :=
| Ok (a : A)
| Raise (e : exn).
Arguments Ok {A} a.
Arguments Raise {A} e.

Definition bind {A B : Type} (r : result A) (k : A -> result B) : result B :=
  match r with
  | Ok a => k a
  | Raise e => Raise e
  end.

Notation "x <- r ;; k" := (bind r (fun x => k))
  (at level 61, r at next level, right associativity).

(** * numpy *)

Module Np.

(** A 1-d array is the list of its entries, a 2-d array the list of
    its rows. *)
Abbreviation vector := (list R).
Abbreviation matrix := (list (list R)).

(** A value that is either a 0-d scalar or a 1-d array: what
    [scipy.stats.uniform.rvs] returns for [size=None] and for an
    integer [size], and what the elementwise operations preserve. *)
Inductive ndarray : Type :=
| Scalar (x : R)
| Array (xs : list R).

Fixpoint zip_with {A B C : Type} (f : A -> B -> C)
         (l : list A) (l' : list B) : list C :=
  match l, l' with
  | a :: t, b :: t' => f a b :: zip_with f t t'
  | _, _ => []
  end.

(** Elementwise application, with numpy's scalar broadcasting. *)
Definition amap (f : R -> R) (a : ndarray) : ndarray :=
  match a with
  | Scalar x => Scalar (f x)
  | Array xs => Array (map f xs)
  end.

Definition amap2 (f : R -> R -> R) (a b : ndarray) : ndarray :=
  match a, b with
  | Scalar x, Scalar y => Scalar (f x y)
  | Scalar x, Array ys => Array (map (f x) ys)
  | Array xs, Scalar y => Array (map (fun x => f x y) xs)
  | Array xs, Array ys => Array (zip_with f xs ys)
  end.

(** [np.dot] of two 1-d arrays. *)
Fixpoint dot (u v : vector) : R :=
  match u, v with
  | a :: u', b :: v' => a * b + dot u' v'
  | _, _ => 0
  end.

(** [np.transpose] of a 2-d array. *)
Fixpoint transpose (m : matrix) : matrix :=
  match m with
  | [] => []
  | r :: rest =>
      match rest with
      | [] => map (fun a => [a]) r
      | _ :: _ => zip_with cons r (transpose rest)
      end
  end.

(** [np.dot] of two 2-d arrays: entry (i, j) is row i of [a] dotted
    with column j of [b]. *)
Definition matmul (a b : matrix) : matrix :=
  map (fun row => map (dot row) (transpose b)) a.

(** [np.atleast_2d] and [np.vstack] on scalars and 1-d arrays: a
    scalar becomes a 1x1 block, a 1-d array of length n a 1xn row. *)
Definition atleast_2d (a : ndarray) : matrix :=
  match a with
  | Scalar x => [[x]]
  | Array xs => [xs]
  end.

Definition vstack (l : list ndarray) : matrix :=
  concat (map atleast_2d l).

(** [np.arctan2 y x] on reals: the angle in (-pi, pi] of the point
    (x, y), and 0 at the origin. *)
Definition arctan2 (y x : R) : R :=
  if Rlt_dec 0 x then atan (y / x)
  else if Rlt_dec x 0 then
         if Rle_dec 0 y then atan (y / x) + PI else atan (y / x) - PI
  else if Rlt_dec 0 y then PI / 2
  else if Rlt_dec y 0 then - (PI / 2)
  else 0.

(** [np.fromiter(it, dtype, count)].  [count] is parsed as a C
    integer, so Python's [None] is refused with a [TypeError] before
    the iterator is touched; with an integer count exactly that many
    items are read, and a shorter iterator is a [ValueError]. *)
Definition fromiter (it : list R) (count : option nat) : result (list R) :=
  match count with
  | None => Raise TypeError
  | Some n =>
      if (length it <? n)%nat then Raise ValueError
      else Ok (firstn n it)
  end.

End Np.

(** * scipy.stats *)

Module St.

(** The process-wide random source: an infinite supply of standard
    uniform draws and the number already consumed. *)
Record rng : Type := { draws : nat -> R; pos : nat }.

Definition advance (n : nat) (g : rng) : rng :=
  {| draws := draws g; pos := (pos g + n)%nat |}.

(** [st.uniform.rvs(loc, scale, size)]: [loc + scale * U] for fresh
    standard uniform draws U; a scalar when [size] is [None]. *)
Definition uniform_rvs (loc scale : R) (size : option nat) (g : rng)
  : Np.ndarray * rng :=
  match size with
  | None => (Np.Scalar (loc + scale * draws g (pos g)), advance 1 g)
  | Some n =>
      (Np.Array (map (fun i => loc + scale * draws g (pos g + i)%nat)
                     (seq 0 n)),
       advance n g)
  end.

End St.

(** * theano *)

Module Tt.

(** A symbolic graph node together with the attribute Python's
    truth test consults.  In theano's [_tensor_py_operators] the class
    attribute [_is_nonzero] is [True]; only the operator methods
    [__lt__], [__le__], [__gt__] and [__ge__] set it to [False] on the
    variable they return, and [__bool__] (Python 2: [__nonzero__])
    returns [True] when it is set and raises [TypeError] otherwise.
    Building a node never looks at the values of its operands. *)
Inductive expr : Type :=
| Const (r : R)
| Ge (a b : expr).

Record TensorVariable : Type :=
  { node : expr; _is_nonzero : bool }.

Definition as_tensor_variable (r : R) : TensorVariable :=
  {| node := Const r; _is_nonzero := true |}.

(** The function [theano.tensor.ge]: builds the comparison node and
    leaves [_is_nonzero] at its default. *)
Definition ge (a b : TensorVariable) : TensorVariable :=
  {| node := Ge (node a) (node b); _is_nonzero := true |}.

(** The operator [a >= b], i.e. [TensorVariable.__ge__]. *)
Definition ge_operator (a b : TensorVariable) : TensorVariable :=
  {| node := Ge (node a) (node b); _is_nonzero := false |}.

(** [bool(v)], i.e. [TensorVariable.__bool__]. *)
Definition py_bool (v : TensorVariable) : result bool :=
  if _is_nonzero v then Ok true else Raise TypeError.

(** The values a compiled graph computes: a real or minus infinity. *)
Inductive xreal : Type :=
| Fin (r : R)
| NegInf.

Definition geb (x y : R) : bool := if Rge_dec x y then true else false.
Definition leb (x y : R) : bool := if Rle_dec x y then true else false.

(** [theano.tensor.all] of a vector of truth values. *)
Definition all (l : list bool) : bool := forallb (fun b => b) l.

(** [theano.tensor.switch] on a scalar condition. *)
Definition switch {A : Type} (c : bool) (ift iff : A) : A :=
  if c then ift else iff.

(** [theano.tensor.expm1]. *)
Definition expm1 (x : R) : R := exp x - 1.

(** [theano.tensor.reshape(t, (-1, 2))] on the row-major data of
    [t]: consecutive pairs become rows; an odd number of elements
    cannot be reshaped. *)
Fixpoint reshape_rows2 (data : list R) : result Np.matrix :=
  match data with
  | [] => Ok []
  | a :: rest =>
      match rest with
      | [] => Raise ValueError
      | b :: rest' =>
          rows <- reshape_rows2 rest' ;; Ok ([a; b] :: rows)
      end
  end.

(** The slice [t[:, j]]. *)
Definition column (j : nat) (t : Np.matrix) : list R :=
  map (fun row => nth j row 0) t.

(** [theano.tensor.dot] of an n x k matrix with a k-vector. *)
Definition dot (t : Np.matrix) (v : Np.vector) : list R :=
  map (fun row => Np.dot row v) t.

End Tt.

(** * pymc3 *)

Module Pm.

(** [pymc3.distributions.dist_math.bound(logp, *conditions)]:
    [switch(alltrue(conditions), logp, -inf)], the scalar condition
    and the [-inf] broadcast against the vector [logp]. *)
Definition bound (logp : list R) (conditions : list bool) : list Tt.xreal :=
  Tt.switch (forallb (fun c => c) conditions)
            (map Tt.Fin logp)
            (map (fun _ => Tt.NegInf) logp).

End Pm.

(** * von_mises_fisher.py *)

Definition d2r : R := PI / 180.
Definition r2d : R := 180 / PI.
Definition eps : R := 1 / 1000000.

(** Lines 15-34. *)
Definition construct_euler_rotation_matrix (alpha beta gamma : R) : Np.matrix :=
  let rot_alpha := [ [cos alpha; - sin alpha; 0];
                     [sin alpha; cos alpha; 0];
                     [0; 0; 1] ] in
  let rot_beta := [ [cos beta; 0; sin beta];
                    [0; 1; 0];
                    [- sin beta; 0; cos beta] ] in
  let rot_gamma := [ [cos gamma; - sin gamma; 0];
                     [sin gamma; cos gamma; 0];
                     [0; 0; 1] ] in
  let rot := Np.matmul rot_gamma (Np.matmul rot_beta rot_alpha) in
  rot.

(** The state [__init__] stores.  [mean], [median] and [mode] alias
    [lon_colat] and are not kept apart. *)
Record VonMisesFisher : Type :=
  { lon_colat : R * R;
    mu : Np.vector;
    kappa : R }.

(** [assert(e)]. *)
Definition py_assert (e : Tt.TensorVariable) : result unit :=
  b <- Tt.py_bool e ;;
  if (b : bool) then Ok tt else Raise AssertionError.

(** Lines 55-60: the unit vector of a (longitude, colatitude) pair
    given in degrees. *)
Definition unit_vector (lc : R * R) : Np.vector :=
  let lon := fst lc * d2r in
  let colat := snd lc * d2r in
  [ sin colat * cos lon; sin colat * sin lon; cos colat ].

(** Lines 50-62. *)
Definition init (lon_colat0 : R * R) (kappa0 : R) : result VonMisesFisher :=
  _ <- py_assert (Tt.ge (Tt.as_tensor_variable kappa0)
                        (Tt.as_tensor_variable 0)) ;;
  Ok {| lon_colat := lon_colat0;
        mu := unit_vector lon_colat0;
        kappa := kappa0 |}.

(** [draw_values([self.lon_colat, self.kappa], point)] on parameters
    that are already numbers. *)
Definition draw_values (self : VonMisesFisher) : (R * R) * R :=
  (lon_colat self, kappa self).

(** Lines 76-79: the z coordinate by inversion of its distribution
    function. *)
Definition sample_z (kappa0 : R) (zeta : Np.ndarray) : Np.ndarray :=
  if Rlt_dec kappa0 eps then
    Np.amap (fun u => 2 * u - 1) zeta
  else
    Np.amap (fun u => 1 + 1 / kappa0 * ln (u + (1 - u) * exp (-2 * kappa0)))
            zeta.

(** Lines 84-85. *)
Definition sample_x (z phi : Np.ndarray) : Np.ndarray :=
  Np.amap2 Rmult (Np.amap sqrt (Np.amap2 (fun a b => 1 - a * b) z z))
           (Np.amap cos phi).

Definition sample_y (z phi : Np.ndarray) : Np.ndarray :=
  Np.amap2 Rmult (Np.amap sqrt (Np.amap2 (fun a b => 1 - a * b) z z))
           (Np.amap sin phi).

(** Lines 69-90. *)
Definition cartesian_sample_generator
           (rotation_matrix : Np.matrix) (kappa0 : R)
           (size : option nat) (g : St.rng) : Np.matrix * St.rng :=
  let '(zeta, g1) := St.uniform_rvs 0 1 size g in
  let z := sample_z kappa0 zeta in
  let '(phi, g2) := St.uniform_rvs 0 (2 * PI) size g1 in
  let x := sample_x z phi in
  let y := sample_y z phi in
  let unrotated_samples := Np.vstack [x; y; z] in
  let samples := Np.transpose (Np.matmul rotation_matrix unrotated_samples) in
  (samples, g2).

(** The two generator expressions of lines 93 and 94, per sample. *)
Definition colat_of_sample (s : Np.vector) : R :=
  acos (nth 2 s 0 / sqrt (Np.dot s s)).

Definition lon_of_sample (s : Np.vector) : R :=
  Np.arctan2 (nth 1 s 0) (nth 0 s 0).

(** Lines 64-95.  The result is paired with the random source as the
    call leaves it. *)
Definition random (self : VonMisesFisher) (size : option nat) (g : St.rng)
  : result Np.matrix * St.rng :=
  let '(lon_colat0, kappa0) := draw_values self in
  let rotation_matrix :=
    construct_euler_rotation_matrix 0 (snd lon_colat0 * d2r)
                                    (fst lon_colat0 * d2r) in
  let '(cartesian_samples, g') :=
    cartesian_sample_generator rotation_matrix kappa0 size g in
  (colat_samples <- Np.fromiter (map colat_of_sample cartesian_samples) size ;;
   lon_samples <- Np.fromiter (map lon_of_sample cartesian_samples) size ;;
   Ok (map (map (fun v => v * r2d))
           (Np.transpose (Np.vstack [Np.Array lon_samples;
                                     Np.Array colat_samples]))),
   g').

(** Lines 101-104: the Cartesian points of the rows of [lon_colat_r]. *)
Definition logp_point (lon_colat_r : Np.matrix) : Np.matrix :=
  let c0 := Tt.column 0 lon_colat_r in
  let c1 := Tt.column 1 lon_colat_r in
  Np.transpose [ Np.zip_with Rmult (map sin c1) (map cos c0);
                 Np.zip_with Rmult (map sin c1) (map sin c0);
                 map cos c1 ].

(** Lines 97-113.  The argument is the row-major data of the tensor
    passed in.  The scalar of the small-kappa branch is broadcast by
    [switch] against the vector of the other branch. *)
Definition logp (self : VonMisesFisher) (lon_colat0 : list R)
  : result (list Tt.xreal) :=
  let kappa0 := kappa self in
  let mu0 := mu self in
  lon_colat_r <- Tt.reshape_rows2 (map (fun v => v * d2r) lon_colat0) ;;
  let point := logp_point lon_colat_r in
  Ok (Pm.bound
        (Tt.switch (Tt.geb kappa0 eps)
           (map (fun d => ln (- kappa0 / (2 * PI * Tt.expm1 (-2 * kappa0)))
                          + kappa0 * (d - 1))
                (Tt.dot point mu0))
           (map (fun _ => ln (1 / 4 / PI)) (Tt.dot point mu0)))
        [ Tt.all (map (fun c => Tt.geb c 0) (Tt.column 1 lon_colat_r));
          Tt.all (map (fun c => Tt.leb c PI) (Tt.column 1 lon_colat_r)) ]).

(** * Reference definitions used by the statements *)

(** The standard rotation about the z axis by [t] radians. *)
Definition Rz (t : R) : Np.matrix :=
  [ [cos t; - sin t; 0];
    [sin t;   cos t; 0];
    [0;       0;     1] ].

(** The standard rotation about the y axis by [t] radians. *)
Definition Ry (t : R) : Np.matrix :=
  [ [  cos t; 0; sin t];
    [  0;     1; 0    ];
    [- sin t; 0; cos t] ].

(** A 2-d array has shape [[n, k]]. *)
Definition has_shape (n k : nat) (m : Np.matrix) : Prop :=
  length m = n /\ Forall (fun row => length row = k) m.

(** Squared Euclidean norm. *)
Definition norm2 (v : Np.vector) : R := Np.dot v v.

(** Matrix times column vector. *)
Definition mat_vec (m : Np.matrix) (v : Np.vector) : Np.vector :=
  map (fun row => Np.dot row v) m.

(** A batch of (longitude, colatitude) pairs as the row-major data of
    the n x 2 tensor handed to [logp]. *)
Definition flatten_pairs (ps : list (R * R)) : list R :=
  flat_map (fun p => [fst p; snd p]) ps.

(** The closed form of the specification for one input pair. *)
Definition vmf_log_density (self : VonMisesFisher) (p : R * R) : R :=
  if Rle_dec eps (kappa self) then
    ln (- kappa self / (2 * PI * (exp (-2 * kappa self) - 1)))
    + kappa self * (Np.dot (unit_vector p) (mu self) - 1)
  else
    ln (1 / (4 * PI)).

(** Colatitude within the support, in degrees. *)
Definition in_support (p : R * R) : Prop := 0 <= snd p <= 180.

Definition in_support_b (p : R * R) : bool :=
  Tt.geb (snd p) 0 && Tt.leb (snd p) 180.

(** What the specification asks of [logp]: each pair masked on its own. *)
Definition per_input_masking (self : VonMisesFisher) (ps : list (R * R)) : Prop :=
  logp self (flatten_pairs ps)
  = Ok (map (fun p => if in_support_b p
                      then Tt.Fin (vmf_log_density self p)
                      else Tt.NegInf) ps).

(** A distribution centred on the equator at longitude 0, with the
    uniform concentration. *)
Definition vmf_equator : VonMisesFisher :=
  {| lon_colat := (0, 90); mu := unit_vector (0, 90); kappa := 0 |}.

(** The z coordinate the specification assigns to a uniform draw [u]. *)
Definition z_of_draw (kappa0 u : R) : R :=
  if Rlt_dec kappa0 eps then 2 * u - 1
  else 1 + 1 / kappa0 * ln (u + (1 - u) * exp (-2 * kappa0)).

(** The sample around the pole, before rotation. *)
Definition unrotated_sample (kappa0 u phi : R) : Np.vector :=
  let z := z_of_draw kappa0 u in
  [ sqrt (1 - z * z) * cos phi; sqrt (1 - z * z) * sin phi; z ].

(** In a call that draws [n] samples from the source [g]: the uniform
    draw and the azimuth of sample [i]. *)
Definition zeta_draw (g : St.rng) (i : nat) : R :=
  St.draws g (St.pos g + i)%nat.

Definition phi_draw (g : St.rng) (n i : nat) : R :=
  2 * PI * St.draws g (St.pos g + n + i)%nat.

(** The angular coordinates, in degrees, of a Cartesian sample. *)
Definition lon_colat_of_sample (s : Np.vector) : list R :=
  [ lon_of_sample s * r2d; colat_of_sample s * r2d ].

(** The rotation [random] builds for a distribution. *)
Definition rotation_of (self : VonMisesFisher) : Np.matrix :=
  construct_euler_rotation_matrix 0 (snd (lon_colat self) * d2r)
                                  (fst (lon_colat self) * d2r).

(** Sample [i] of a call of [random] for [n] samples, in Cartesian
    coordinates after rotation. *)
Definition cartesian_sample (self : VonMisesFisher) (g : St.rng) (n i : nat)
  : Np.vector :=
  mat_vec (rotation_of self)
          (unrotated_sample (kappa self) (zeta_draw g i) (phi_draw g n i)).

(** A distribution centred on the pole, with the uniform
    concentration, and a random source whose draws are all 1/2. *)
Definition vmf_pole : VonMisesFisher :=
  {| lon_colat := (0, 0); mu := unit_vector (0, 0); kappa := 0 |}.

Definition rng_half : St.rng :=
  {| St.draws := fun _ => 1 / 2; St.pos := 0 |}.

(** The ranges in which the rows of [random] are claimed to lie, the
    last one excluding longitudes from 180 up to 360 degrees. *)
Definition angles_as_claimed (self : VonMisesFisher) (n : nat) (g : St.rng)
  : Prop :=
  exists rows,
    fst (random self (Some n) g) = Ok rows
    /\ Forall (fun row => -180 <= nth 0 row 0 <= 180
                          /\ 0 <= nth 1 row 0 <= 180
                          /\ ~ (180 <= nth 0 row 0 < 360)) rows.

(** The 3 x 3 identity and the determinant of a 3 x 3 array. *)
Definition identity3 : Np.matrix := [[1; 0; 0]; [0; 1; 0]; [0; 0; 1]].

Definition det3 (m : Np.matrix) : R :=
  match m with
  | [[a; b; c]; [d; e; f]; [g; h; i]] =>
      a * (e * i - f * h) - b * (d * i - f * g) + c * (d * h - e * g)
  | _ => 0
  end.

(** The distribution [__init__] builds, as a value. *)
Definition vmf (lc : R * R) (k : R) : VonMisesFisher :=
  {| lon_colat := lc; mu := unit_vector lc; kappa := k |}.

(** The value [logp] computes for an input whose unit vector has dot
    product [d] with [mu] (lines 106-111, before [bound]). *)
Definition logp_of_dot (k d : R) : R :=
  if Rle_dec eps k then
    ln (- k / (2 * PI * (exp (-2 * k) - 1))) + k * (d - 1)
  else
    ln (1 / (4 * PI)).

(** The distribution function of the z coordinate around the pole that
    lines 76-79 invert: the uniform one on [-1, 1] below [eps]. *)
Definition vmf_z_cdf (k z : R) : R :=
  if Rlt_dec k eps then (z + 1) / 2
  else (exp (k * (z - 1)) - exp (-2 * k)) / (1 - exp (-2 * k)).

(** The distance the uniform draws for z are kept from 0 in the
    statements on sampling.  In exact arithmetic a draw u gives
    z >= -1 + 2 u; for kappa >= [eps] the rounding of line 79 moves z
    by a few 1e-16 / kappa, that is by less than 1e-9, so with draws of
    at least 1e-6 the computed z stays above -1 and the square root of
    line 84 is taken of a positive number. *)
Definition draw_margin : R := 1 / 1000000.

(** The [n] draws a call uses for z are at least [draw_margin]. *)
Definition draws_clear_of_edge (g : St.rng) (n : nat) : Prop :=
  forall i, (i < n)%nat -> draw_margin <= zeta_draw g i <= 1.

(** * Elementary facts *)

Lemma d2r_r2d : d2r * r2d = 1.
Proof. unfold d2r, r2d. pose proof PI_RGT_0. field. lra. Qed.

Lemma r2d_pos : 0 < r2d.
Proof.
  unfold r2d. pose proof PI_RGT_0.
  apply Rdiv_lt_0_compat; lra.
Qed.

Lemma eps_pos : 0 < eps.
Proof. unfold eps. lra. Qed.

Lemma sin_cos_sq (x : R) : sin x * sin x + cos x * cos x = 1.
Proof. pose proof (sin2_cos2 x) as H. unfold Rsqr in H. exact H. Qed.

Ltac np_eval :=
  cbv [construct_euler_rotation_matrix Rz Ry mat_vec norm2 unit_vector
       Np.matmul Np.transpose Np.zip_with Np.dot Tt.dot map fst snd
       nth length].

(** * The array model on small inputs *)

Example transpose_2x3 :
  Np.transpose [[1; 2; 3]; [4; 5; 6]] = [[1; 4]; [2; 5]; [3; 6]].
Proof. reflexivity. Qed.

Example vstack_scalars :
  Np.vstack [Np.Scalar 1; Np.Scalar 2; Np.Scalar 3] = [[1]; [2]; [3]].
Proof. reflexivity. Qed.

Example reshape_odd : Tt.reshape_rows2 [1; 2; 3] = Raise ValueError.
Proof. reflexivity. Qed.

Example reshape_two_rows :
  Tt.reshape_rows2 [1; 2; 3; 4] = Ok [[1; 2]; [3; 4]].
Proof. reflexivity. Qed.

Example fromiter_short : Np.fromiter [1; 2] (Some 3%nat) = Raise ValueError.
Proof. reflexivity. Qed.

Example truth_of_ge_function (a b : R) :
  Tt.py_bool (Tt.ge (Tt.as_tensor_variable a) (Tt.as_tensor_variable b))
  = Ok true.
Proof. reflexivity. Qed.

Example truth_of_ge_operator (a b : R) :
  Tt.py_bool (Tt.ge_operator (Tt.as_tensor_variable a) (Tt.as_tensor_variable b))
  = Raise TypeError.
Proof. reflexivity. Qed.

Example rotation_zero_angles :
  construct_euler_rotation_matrix 0 0 0 = [[1; 0; 0]; [0; 1; 0]; [0; 0; 1]].
Proof.
  cbv [construct_euler_rotation_matrix Np.matmul Np.transpose Np.zip_with
       Np.dot map].
  rewrite cos_0, sin_0. repeat (f_equal; try ring).
Qed.

(** * The Euler rotation builder *)

Lemma Rz_isometry (t x y z : R) :
  norm2 (mat_vec (Rz t) [x; y; z]) = norm2 [x; y; z].
Proof.
  np_eval. pose proof (sin_cos_sq t) as H.
  transitivity ((sin t * sin t + cos t * cos t) * (x * x + y * y) + z * z).
  - ring.
  - rewrite H. ring.
Qed.

Lemma Ry_isometry (t x y z : R) :
  norm2 (mat_vec (Ry t) [x; y; z]) = norm2 [x; y; z].
Proof.
  np_eval. pose proof (sin_cos_sq t) as H.
  transitivity ((sin t * sin t + cos t * cos t) * (x * x + z * z) + y * y).
  - ring.
  - rewrite H. ring.
Qed.

(** Applying the built matrix is applying the three rotations in turn. *)
Lemma euler_rotation_apply (alpha beta gamma x y z : R) :
  mat_vec (construct_euler_rotation_matrix alpha beta gamma) [x; y; z]
  = mat_vec (Rz gamma) (mat_vec (Ry beta) (mat_vec (Rz alpha) [x; y; z])).
Proof. np_eval. repeat (f_equal; try ring). Qed.

Lemma mat_vec_Rz (t x y z : R) :
  mat_vec (Rz t) [x; y; z]
  = [cos t * x + (- sin t * y + (0 * z + 0));
     sin t * x + (cos t * y + (0 * z + 0));
     0 * x + (0 * y + (1 * z + 0))].
Proof. reflexivity. Qed.

Lemma mat_vec_Ry (t x y z : R) :
  mat_vec (Ry t) [x; y; z]
  = [cos t * x + (0 * y + (sin t * z + 0));
     0 * x + (1 * y + (0 * z + 0));
     - sin t * x + (0 * y + (cos t * z + 0))].
Proof. reflexivity. Qed.

(** The rotation built for any three angles maps vectors to vectors of
    the same squared norm. *)
Lemma euler_rotation_isometry (alpha beta gamma x y z : R) :
  norm2 (mat_vec (construct_euler_rotation_matrix alpha beta gamma) [x; y; z])
  = norm2 [x; y; z].
Proof.
  rewrite euler_rotation_apply.
  rewrite (mat_vec_Rz alpha), (mat_vec_Ry beta), Rz_isometry.
  rewrite <- mat_vec_Ry, Ry_isometry.
  rewrite <- mat_vec_Rz. apply Rz_isometry.
Qed.

(** The built matrix written out entry by entry. *)
Lemma euler_rotation_entries (alpha beta gamma : R) :
  construct_euler_rotation_matrix alpha beta gamma
  = [ [ cos gamma * cos beta * cos alpha - sin gamma * sin alpha;
        - cos gamma * cos beta * sin alpha - sin gamma * cos alpha;
        cos gamma * sin beta ];
      [ sin gamma * cos beta * cos alpha + cos gamma * sin alpha;
        - sin gamma * cos beta * sin alpha + cos gamma * cos alpha;
        sin gamma * sin beta ];
      [ - sin beta * cos alpha; sin beta * sin alpha; cos beta ] ].
Proof. np_eval. repeat (f_equal; try ring). Qed.

(** C6.  For all angles the function returns Rz(gamma) . Ry(beta) .
    Rz(alpha), whichever way the product is bracketed, and the result
    is a 3 x 3 array; being a Rocq function it is defined on every
    real input. *)
Theorem construct_euler_rotation_matrix_is_zyz (alpha beta gamma : R) :
  construct_euler_rotation_matrix alpha beta gamma
  = Np.matmul (Rz gamma) (Np.matmul (Ry beta) (Rz alpha))
  /\ construct_euler_rotation_matrix alpha beta gamma
     = Np.matmul (Np.matmul (Rz gamma) (Ry beta)) (Rz alpha)
  /\ has_shape 3 3 (construct_euler_rotation_matrix alpha beta gamma).
Proof.
  split; [reflexivity|]. split.
  - np_eval. repeat (f_equal; try ring).
  - rewrite euler_rotation_entries. split; [reflexivity|].
    repeat constructor.
Qed.

(** * Lists behind the vectorised code *)

Lemma zip_with_map {A B C D : Type} (f : B -> C -> D) (g : A -> B) (h : A -> C)
      (l : list A) :
  Np.zip_with f (map g l) (map h l) = map (fun a => f (g a) (h a)) l.
Proof. induction l as [|a l IH]; simpl; [reflexivity | now rewrite IH]. Qed.

Lemma transpose2 (r1 r2 : list R) :
  Np.transpose [r1; r2] = Np.zip_with cons r1 (map (fun a => [a]) r2).
Proof. reflexivity. Qed.

Lemma transpose3 (r1 r2 r3 : list R) :
  Np.transpose [r1; r2; r3]
  = Np.zip_with cons r1 (Np.zip_with cons r2 (map (fun a => [a]) r3)).
Proof. reflexivity. Qed.

Lemma transpose3_map {A : Type} (f g h : A -> R) (l : list A) :
  Np.transpose [map f l; map g l; map h l] = map (fun a => [f a; g a; h a]) l.
Proof.
  rewrite transpose3.
  induction l as [|a l IH]; simpl; [reflexivity | now rewrite IH].
Qed.

Lemma transpose2_map {A : Type} (f g : A -> R) (l : list A) :
  Np.transpose [map f l; map g l] = map (fun a => [f a; g a]) l.
Proof.
  rewrite transpose2.
  induction l as [|a l IH]; simpl; [reflexivity | now rewrite IH].
Qed.

(** * The points [logp] evaluates *)

Lemma logp_point_rows (rows : Np.matrix) :
  logp_point rows
  = map (fun row => [ sin (nth 1 row 0) * cos (nth 0 row 0);
                      sin (nth 1 row 0) * sin (nth 0 row 0);
                      cos (nth 1 row 0) ]) rows.
Proof.
  unfold logp_point, Tt.column.
  rewrite !map_map, !zip_with_map.
  apply (transpose3_map
           (fun row => sin (nth 1 row 0) * cos (nth 0 row 0))
           (fun row => sin (nth 1 row 0) * sin (nth 0 row 0))
           (fun row => cos (nth 1 row 0))).
Qed.

Lemma reshape_flatten (ps : list (R * R)) :
  Tt.reshape_rows2 (map (fun v => v * d2r) (flatten_pairs ps))
  = Ok (map (fun p => [fst p * d2r; snd p * d2r]) ps).
Proof.
  induction ps as [|p ps IH]; [reflexivity|].
  unfold flatten_pairs in *. cbn [flat_map app map Tt.reshape_rows2].
  rewrite IH. reflexivity.
Qed.

Lemma logp_point_pairs (ps : list (R * R)) :
  logp_point (map (fun p => [fst p * d2r; snd p * d2r]) ps)
  = map unit_vector ps.
Proof. rewrite logp_point_rows, map_map. reflexivity. Qed.

(** * The unit vector of a direction *)

Lemma unit_vector_norm (p : R * R) : norm2 (unit_vector p) = 1.
Proof.
  destruct p as [lon0 colat0]. np_eval.
  set (lon := lon0 * d2r). set (colat := colat0 * d2r).
  pose proof (sin_cos_sq lon) as Hl. pose proof (sin_cos_sq colat) as Hc.
  transitivity (sin colat * sin colat * (sin lon * sin lon + cos lon * cos lon)
                + cos colat * cos colat).
  - ring.
  - rewrite Hl. lra.
Qed.

(** A direction given in radians, through its value in degrees. *)
Lemma unit_vector_radians (lon colat : R) :
  unit_vector (lon * r2d, colat * r2d)
  = [sin colat * cos lon; sin colat * sin lon; cos colat].
Proof.
  unfold unit_vector. cbn [fst snd].
  replace (colat * r2d * d2r) with colat
    by (rewrite Rmult_assoc, (Rmult_comm r2d), d2r_r2d; ring).
  replace (lon * r2d * d2r) with lon
    by (rewrite Rmult_assoc, (Rmult_comm r2d), d2r_r2d; ring).
  reflexivity.
Qed.

(** Cauchy-Schwarz for two unit vectors of the 3-space. *)
Lemma dot3_unit_bound (a b c x y z : R) :
  a * a + b * b + c * c = 1 ->
  x * x + y * y + z * z = 1 ->
  -1 <= a * x + b * y + c * z <= 1.
Proof.
  intros H1 H2.
  pose proof (Rle_0_sqr (a - x)) as S1. pose proof (Rle_0_sqr (b - y)) as S2.
  pose proof (Rle_0_sqr (c - z)) as S3. pose proof (Rle_0_sqr (a + x)) as S4.
  pose proof (Rle_0_sqr (b + y)) as S5. pose proof (Rle_0_sqr (c + z)) as S6.
  unfold Rsqr in *. lra.
Qed.

Lemma unit_vector_dot_bound (p q : R * R) :
  -1 <= Np.dot (unit_vector p) (unit_vector q) <= 1.
Proof.
  pose proof (unit_vector_norm p) as Hp. pose proof (unit_vector_norm q) as Hq.
  destruct p as [lon0 colat0], q as [lon1 colat1].
  revert Hp Hq. np_eval. intros Hp Hq.
  match goal with
  | |- _ <= ?a * ?x + (?b * ?y + (?c * ?z + 0)) <= _ =>
      pose proof (dot3_unit_bound a b c x y z) as H
  end.
  lra.
Qed.

(** * Support conditions of [logp] *)

Lemma geb_true (x y : R) : Tt.geb x y = true <-> x >= y.
Proof. unfold Tt.geb. destruct (Rge_dec x y); split; intros; try easy. Qed.

Lemma leb_true (x y : R) : Tt.leb x y = true <-> x <= y.
Proof. unfold Tt.leb. destruct (Rle_dec x y); split; intros; try easy. Qed.

Lemma in_support_b_spec (p : R * R) : in_support_b p = true <-> in_support p.
Proof.
  unfold in_support_b, in_support.
  rewrite andb_true_iff, geb_true, leb_true. lra.
Qed.

Lemma geb_radians (c : R) : Tt.geb (c * d2r) 0 = Tt.geb c 0.
Proof.
  unfold Tt.geb, d2r. pose proof PI_RGT_0.
  destruct (Rge_dec (c * (PI / 180)) 0), (Rge_dec c 0); try reflexivity; nra.
Qed.

Lemma leb_radians (c : R) : Tt.leb (c * d2r) PI = Tt.leb c 180.
Proof.
  unfold Tt.leb, d2r. pose proof PI_RGT_0.
  destruct (Rle_dec (c * (PI / 180)) PI), (Rle_dec c 180); try reflexivity; nra.
Qed.

Lemma forallb_andb {A : Type} (f g : A -> bool) (l : list A) :
  forallb f l && forallb g l = forallb (fun a => f a && g a) l.
Proof.
  induction l as [|a l IH]; simpl; [reflexivity|].
  rewrite <- IH. destruct (f a), (g a), (forallb f l); reflexivity.
Qed.

Lemma forallb_map_id {A : Type} (f : A -> bool) (l : list A) :
  forallb (fun b => b) (map f l) = forallb f l.
Proof. induction l as [|a l IH]; simpl; [reflexivity | now rewrite IH]. Qed.

(** The two reductions handed to [bound] together say: every
    colatitude of the batch is in [0, 180] degrees. *)
Lemma support_gate (ps : list (R * R)) :
  let rows := map (fun p => [fst p * d2r; snd p * d2r]) ps in
  forallb (fun c => c)
          [ Tt.all (map (fun c => Tt.geb c 0) (Tt.column 1 rows));
            Tt.all (map (fun c => Tt.leb c PI) (Tt.column 1 rows)) ]
  = forallb in_support_b ps.
Proof.
  cbv zeta. unfold Tt.all, Tt.column. cbn [forallb].
  rewrite andb_true_r, !map_map, !forallb_map_id, forallb_andb.
  induction ps as [|p ps IH]; [reflexivity|].
  cbn [forallb nth] in *. rewrite IH. unfold in_support_b.
  now rewrite geb_radians, leb_radians.
Qed.

Lemma forallb_in_support (ps : list (R * R)) :
  forallb in_support_b ps = true <-> Forall in_support ps.
Proof.
  rewrite forallb_forall, Forall_forall.
  split; intros H p Hp; apply in_support_b_spec, H, Hp.
Qed.

(** The branch on kappa, per input. *)
Lemma logp_branches (self : VonMisesFisher) (ps : list (R * R)) :
  Tt.switch (Tt.geb (kappa self) eps)
    (map (fun d => ln (- kappa self / (2 * PI * Tt.expm1 (-2 * kappa self)))
                   + kappa self * (d - 1))
         (Tt.dot (map unit_vector ps) (mu self)))
    (map (fun _ => ln (1 / 4 / PI)) (Tt.dot (map unit_vector ps) (mu self)))
  = map (vmf_log_density self) ps.
Proof.
  unfold Tt.switch, Tt.dot, vmf_log_density, Tt.geb, Tt.expm1.
  rewrite !map_map.
  destruct (Rge_dec (kappa self) eps) as [Hge|Hlt];
    apply map_ext; intros p; destruct (Rle_dec eps (kappa self));
    try reflexivity; try (exfalso; lra).
  f_equal. field. pose proof PI_RGT_0; lra.
Qed.

(** [logp] on a batch of pairs: the closed form of every pair, behind
    one gate for the whole batch. *)
Lemma logp_bound_form (self : VonMisesFisher) (ps : list (R * R)) :
  logp self (flatten_pairs ps)
  = Ok (Pm.bound (map (vmf_log_density self) ps) [forallb in_support_b ps]).
Proof.
  unfold logp. rewrite reshape_flatten. cbn [bind].
  rewrite logp_point_pairs, logp_branches.
  unfold Pm.bound. rewrite support_gate. cbn [forallb].
  now rewrite andb_true_r.
Qed.

(** * The log-density *)

(** C1.  On a batch whose colatitudes all lie in [0, 180] degrees,
    [logp] returns for each pair the closed form selected by comparing
    kappa with [eps]: the Von Mises-Fisher expression in the dot product
    with [mu] when [eps <= kappa], and the constant [ln (1 / (4 pi))]
    otherwise. *)
Theorem logp_closed_form (self : VonMisesFisher) (ps : list (R * R)) :
  Forall in_support ps ->
  logp self (flatten_pairs ps)
  = Ok (map (fun p => Tt.Fin (vmf_log_density self p)) ps).
Proof.
  intros Hs. rewrite logp_bound_form.
  apply forallb_in_support in Hs.
  unfold Pm.bound, Tt.switch. cbn [forallb]. rewrite Hs, map_map. reflexivity.
Qed.

(** An instance: two pairs in the support, one of them on its edge. *)
Lemma logp_closed_form_witness :
  logp vmf_equator (flatten_pairs [(10, 45); (200, 180)])
  = Ok (map (fun p => Tt.Fin (vmf_log_density vmf_equator p))
            [(10, 45); (200, 180)]).
Proof.
  apply (logp_closed_form vmf_equator [(10, 45); (200, 180)]).
  repeat constructor; cbn [snd]; lra.
Defined.

(** The scenario of the specification: with kappa below [eps] the
    log-density is [ln (1 / (4 pi))] at every direction of the support. *)
Lemma logp_uniform_limit (self : VonMisesFisher) (ps : list (R * R)) :
  kappa self < eps ->
  Forall in_support ps ->
  logp self (flatten_pairs ps) = Ok (map (fun _ => Tt.Fin (ln (1 / (4 * PI)))) ps).
Proof.
  intros Hk Hs. rewrite logp_bound_form.
  apply forallb_in_support in Hs.
  unfold Pm.bound, Tt.switch. cbn [forallb]. rewrite Hs, map_map. f_equal.
  apply map_ext. intros p. unfold vmf_log_density.
  destruct (Rle_dec eps (kappa self)); [lra | reflexivity].
Qed.

(** The second scenario: at the mean direction the term in the dot
    product vanishes. *)
Lemma vmf_log_density_at_mean (p : R * R) (k : R) :
  eps <= k ->
  vmf_log_density {| lon_colat := p; mu := unit_vector p; kappa := k |} p
  = ln (- k / (2 * PI * (exp (-2 * k) - 1))).
Proof.
  intros Hk. unfold vmf_log_density. cbn [kappa mu].
  destruct (Rle_dec eps k); [|lra].
  change (Np.dot (unit_vector p) (unit_vector p)) with (norm2 (unit_vector p)).
  rewrite unit_vector_norm. lra.
Qed.

(** The scenario at the pole: mean (0, 0), kappa 10, evaluated at
    colatitude 0 and any longitude. *)
Lemma logp_pole_scenario (lon : R) :
  logp {| lon_colat := (0, 0); mu := unit_vector (0, 0); kappa := 10 |}
       (flatten_pairs [(lon, 0)])
  = Ok [Tt.Fin (ln (- 10 / (2 * PI * (exp (- 20) - 1))))].
Proof.
  rewrite logp_bound_form.
  assert (Hs : in_support_b (lon, 0) = true).
  { apply in_support_b_spec. unfold in_support. cbn [snd]. lra. }
  unfold Pm.bound, Tt.switch. cbn [forallb map]. rewrite Hs. cbn [andb].
  unfold vmf_log_density. cbn [kappa mu].
  destruct (Rle_dec eps 10) as [_ | H]; [|exfalso; unfold eps in H; lra].
  unfold unit_vector. cbn [fst snd Np.dot].
  replace (0 * d2r) with 0 by ring. rewrite sin_0, cos_0.
  replace (-2 * 10) with (- 20) by ring.
  do 3 f_equal.
  match goal with
  | |- ln ?a + ?b = ln ?c =>
      replace b with 0 by ring;
      replace a with c by (unfold Rdiv; ring)
  end.
  ring.
Qed.

(** A batch with a colatitude outside [0, 180] is rejected as a whole. *)
Lemma logp_out_of_support (self : VonMisesFisher) (ps : list (R * R)) :
  Exists (fun p => ~ in_support p) ps ->
  logp self (flatten_pairs ps) = Ok (map (fun _ => Tt.NegInf) ps).
Proof.
  intros He. rewrite logp_bound_form.
  assert (Hf : forallb in_support_b ps = false).
  { destruct (forallb in_support_b ps) eqn:E; [|reflexivity].
    apply forallb_in_support in E. apply Exists_exists in He.
    destruct He as (p & Hp & Hn). rewrite Forall_forall in E.
    exfalso. apply Hn, E, Hp. }
  unfold Pm.bound, Tt.switch. cbn [forallb]. rewrite Hf. cbn [andb].
  now rewrite map_map.
Qed.

(** The scenario of the specification: colatitudes -10 and 190. *)
Lemma logp_sentinel_scenario (self : VonMisesFisher) (lon : R) :
  logp self (flatten_pairs [(lon, -10)]) = Ok [Tt.NegInf]
  /\ logp self (flatten_pairs [(lon, 190)]) = Ok [Tt.NegInf].
Proof.
  split; apply (logp_out_of_support self [_]); constructor;
    unfold in_support; cbn [snd]; lra.
Qed.

(** C3 (as the code has it).  One gate stands in front of the whole
    batch: when every colatitude is in [0, 180] each pair gets its
    closed form, and as soon as one colatitude is outside every entry
    of the result is minus infinity. *)
Theorem logp_whole_batch_gate (self : VonMisesFisher) (ps : list (R * R)) :
  logp self (flatten_pairs ps)
  = Ok (if forallb in_support_b ps
        then map (fun p => Tt.Fin (vmf_log_density self p)) ps
        else map (fun _ => Tt.NegInf) ps).
Proof.
  rewrite logp_bound_form. unfold Pm.bound, Tt.switch. cbn [forallb].
  rewrite andb_true_r, !map_map. reflexivity.
Qed.

(** C3 (as stated) fails: in the batch [(0, 90); (0, 190)] the first
    pair is in the support, yet its entry is minus infinity too. *)
Lemma logp_masks_in_support_pair :
  ~ per_input_masking vmf_equator [(0, 90); (0, 190)].
Proof.
  unfold per_input_masking. rewrite logp_bound_form.
  assert (H1 : in_support_b (0, 90) = true).
  { apply in_support_b_spec. unfold in_support. cbn [snd]. lra. }
  assert (H2 : in_support_b (0, 190) = false).
  { destruct (in_support_b (0, 190)) eqn:E; [|reflexivity].
    apply in_support_b_spec in E. unfold in_support in E. cbn [snd] in E. lra. }
  unfold Pm.bound, Tt.switch. cbn [forallb map]. rewrite H1, H2. cbn [andb].
  intros H. discriminate H.
Qed.

(** * Construction *)

(** The assertion of [__init__] tests the truth value of a symbolic
    comparison, which is [True] whatever the operands: construction
    never raises. *)
Lemma init_total (lc : R * R) (k : R) :
  init lc k = Ok {| lon_colat := lc; mu := unit_vector lc; kappa := k |}.
Proof. reflexivity. Qed.

(** The two distributions used as instances below are what
    construction returns. *)
Example init_equator : init (0, 90) 0 = Ok vmf_equator.
Proof. apply init_total. Qed.

Example init_pole : init (0, 0) 0 = Ok vmf_pole.
Proof. apply init_total. Qed.

(** C4.  Construction with kappa = -1 does not fail: it succeeds and
    stores -1 as the concentration. *)
Theorem init_accepts_negative_kappa :
  init (0, 90) (-1)
  = Ok {| lon_colat := (0, 90); mu := unit_vector (0, 90); kappa := -1 |}.
Proof. apply init_total. Qed.

(** C9.  Whatever the longitude, colatitude and kappa, the vector [mu]
    stored by [__init__] has squared norm exactly 1, and the dot
    products [logp] takes with it lie in [-1, 1]. *)
Theorem mu_is_unit_vector (lc : R * R) (k : R) :
  exists self,
    init lc k = Ok self
    /\ mu self = unit_vector lc
    /\ norm2 (mu self) = 1
    /\ (forall q, -1 <= Np.dot (unit_vector q) (mu self) <= 1)
    /\ (forall rows, Forall (fun d => -1 <= d <= 1)
                            (Tt.dot (logp_point rows) (mu self))).
Proof.
  eexists. split; [apply init_total|]. cbn [mu].
  split; [reflexivity|]. split; [apply unit_vector_norm|].
  split; [intros q; apply unit_vector_dot_bound|].
  intros rows. rewrite logp_point_rows. unfold Tt.dot. rewrite map_map.
  apply Forall_forall. intros d Hd. apply in_map_iff in Hd.
  destruct Hd as [row [<- _]].
  rewrite <- unit_vector_radians. apply unit_vector_dot_bound.
Qed.

(** * Sampling *)

Lemma sample_z_array (k : R) (us : list R) :
  sample_z k (Np.Array us) = Np.Array (map (z_of_draw k) us).
Proof.
  unfold sample_z, z_of_draw, Np.amap.
  destruct (Rlt_dec k eps); reflexivity.
Qed.

Lemma sample_z_scalar (k u : R) :
  sample_z k (Np.Scalar u) = Np.Scalar (z_of_draw k u).
Proof.
  unfold sample_z, z_of_draw, Np.amap.
  destruct (Rlt_dec k eps); reflexivity.
Qed.

Lemma sample_x_map {A : Type} (Z P : A -> R) (l : list A) :
  sample_x (Np.Array (map Z l)) (Np.Array (map P l))
  = Np.Array (map (fun i => sqrt (1 - Z i * Z i) * cos (P i)) l).
Proof.
  unfold sample_x, Np.amap2, Np.amap.
  rewrite (zip_with_map (fun a b => 1 - a * b) Z Z), !map_map.
  rewrite (zip_with_map Rmult (fun i => sqrt (1 - Z i * Z i))
                        (fun i => cos (P i))).
  reflexivity.
Qed.

Lemma sample_y_map {A : Type} (Z P : A -> R) (l : list A) :
  sample_y (Np.Array (map Z l)) (Np.Array (map P l))
  = Np.Array (map (fun i => sqrt (1 - Z i * Z i) * sin (P i)) l).
Proof.
  unfold sample_y, Np.amap2, Np.amap.
  rewrite (zip_with_map (fun a b => 1 - a * b) Z Z), !map_map.
  rewrite (zip_with_map Rmult (fun i => sqrt (1 - Z i * Z i))
                        (fun i => sin (P i))).
  reflexivity.
Qed.

(** The product of a three-row matrix with the stacked coordinates,
    transposed, is the matrix applied to each sample. *)
Lemma rotate_stacked {A : Type} (r0 r1 r2 : Np.vector) (X Y Z : A -> R)
      (l : list A) :
  Np.transpose (Np.matmul [r0; r1; r2] [map X l; map Y l; map Z l])
  = map (fun i => mat_vec [r0; r1; r2] [X i; Y i; Z i]) l.
Proof.
  unfold Np.matmul. rewrite transpose3_map. cbn [map]. rewrite !map_map.
  apply (transpose3_map (fun i => Np.dot r0 [X i; Y i; Z i])
                        (fun i => Np.dot r1 [X i; Y i; Z i])
                        (fun i => Np.dot r2 [X i; Y i; Z i])).
Qed.

Lemma uniform_rvs_sized (loc scale : R) (n : nat) (g : St.rng) :
  St.uniform_rvs loc scale (Some n) g
  = (Np.Array (map (fun i => loc + scale * St.draws g (St.pos g + i)%nat)
                   (seq 0 n)),
     St.advance n g).
Proof. reflexivity. Qed.

(** The generator for [n] samples, sample by sample. *)
Lemma generator_sized (r0 r1 r2 : Np.vector) (k : R) (n : nat) (g : St.rng) :
  cartesian_sample_generator [r0; r1; r2] k (Some n) g
  = (map (fun i => mat_vec [r0; r1; r2]
                     (unrotated_sample k (zeta_draw g i) (phi_draw g n i)))
         (seq 0 n),
     St.advance n (St.advance n g)).
Proof.
  unfold cartesian_sample_generator. rewrite !uniform_rvs_sized.
  cbn [St.pos St.draws St.advance].
  rewrite (map_ext (fun i => 0 + 1 * St.draws g (St.pos g + i)%nat)
                   (zeta_draw g))
    by (intros i; unfold zeta_draw; ring).
  rewrite (map_ext (fun i => 0 + 2 * PI * St.draws g (St.pos g + n + i)%nat)
                   (phi_draw g n))
    by (intros i; unfold phi_draw; ring).
  rewrite sample_z_array, map_map, sample_x_map, sample_y_map.
  f_equal.
  cbn [Np.vstack Np.atleast_2d map concat app].
  apply (rotate_stacked r0 r1 r2
           (fun i => sqrt (1 - z_of_draw k (zeta_draw g i)
                                * z_of_draw k (zeta_draw g i))
                     * cos (phi_draw g n i))
           (fun i => sqrt (1 - z_of_draw k (zeta_draw g i)
                                * z_of_draw k (zeta_draw g i))
                     * sin (phi_draw g n i))
           (fun i => z_of_draw k (zeta_draw g i))).
Qed.

Lemma rotation_rows (alpha beta gamma : R) :
  exists r0 r1 r2, construct_euler_rotation_matrix alpha beta gamma = [r0; r1; r2].
Proof. rewrite euler_rotation_entries. eauto. Qed.

Lemma fromiter_exact (l : list R) :
  Np.fromiter l (Some (length l)) = Ok l.
Proof.
  unfold Np.fromiter. rewrite Nat.ltb_irrefl, firstn_all. reflexivity.
Qed.

(** [random] for [n] samples: it returns, and row [i] of the result is
    the pair of angles of Cartesian sample [i]. *)
Lemma random_sized (self : VonMisesFisher) (n : nat) (g : St.rng) :
  random self (Some n) g
  = (Ok (map (fun i => lon_colat_of_sample (cartesian_sample self g n i))
             (seq 0 n)),
     St.advance n (St.advance n g)).
Proof.
  unfold random, draw_values, cartesian_sample, rotation_of.
  destruct (rotation_rows 0 (snd (lon_colat self) * d2r)
                          (fst (lon_colat self) * d2r)) as (r0 & r1 & r2 & E).
  rewrite E, generator_sized. f_equal.
  rewrite !map_map.
  pose (S := fun i : nat =>
               mat_vec [r0; r1; r2]
                 (unrotated_sample (kappa self) (zeta_draw g i) (phi_draw g n i))).
  pose proof (fromiter_exact (map (fun i => colat_of_sample (S i)) (seq 0 n))) as Hc.
  pose proof (fromiter_exact (map (fun i => lon_of_sample (S i)) (seq 0 n))) as Hl.
  rewrite length_map, length_seq in Hc, Hl.
  pose proof (transpose2_map (fun i => lon_of_sample (S i))
                             (fun i => colat_of_sample (S i)) (seq 0 n)) as Ht.
  subst S. cbv beta in Hc, Hl, Ht.
  rewrite Hc. cbn [bind]. rewrite Hl. cbn [bind].
  cbn [Np.vstack Np.atleast_2d map concat app].
  rewrite Ht, map_map. reflexivity.
Qed.

(** * The inverse-distribution formula for z *)

Lemma ln_le_mono (x y : R) : 0 < x -> x <= y -> ln x <= ln y.
Proof.
  intros Hx [Hlt | ->]; [|lra].
  left. now apply ln_increasing.
Qed.

Lemma unrotated_sample_norm (k u phi : R) :
  -1 <= z_of_draw k u <= 1 -> norm2 (unrotated_sample k u phi) = 1.
Proof.
  intros Hz. unfold unrotated_sample, norm2. cbv zeta. cbn [Np.dot].
  set (z := z_of_draw k u) in *.
  assert (H0 : 0 <= 1 - z * z) by nra.
  pose proof (sqrt_sqrt _ H0) as Hs.
  pose proof (sin_cos_sq phi) as Hp.
  set (r := sqrt (1 - z * z)) in *.
  transitivity (r * r * (sin phi * sin phi + cos phi * cos phi) + z * z).
  - ring.
  - rewrite Hp, Hs. ring.
Qed.

(** * arctan2 and arccos *)

Lemma sqrt_1_sqr_pos (t : R) : 0 < sqrt (1 + t²).
Proof. apply sqrt_lt_R0. pose proof (Rle_0_sqr t). lra. Qed.

Lemma hypot_pos (x y : R) :
  0 < x -> sqrt (x * x + y * y) = x * sqrt (1 + (y / x)²).
Proof.
  intros Hx.
  replace (x * x + y * y) with ((x * x) * (1 + (y / x)²))
    by (unfold Rsqr; field; lra).
  rewrite sqrt_mult_alt by nra.
  rewrite sqrt_square by lra. reflexivity.
Qed.

Lemma hypot_neg (x y : R) :
  x < 0 -> sqrt (x * x + y * y) = - x * sqrt (1 + (y / x)²).
Proof.
  intros Hx.
  replace (x * x + y * y) with ((- x * - x) * (1 + (y / x)²))
    by (unfold Rsqr; field; lra).
  rewrite sqrt_mult_alt by nra.
  rewrite sqrt_square by lra. reflexivity.
Qed.

(** [arctan2 y x] is the polar angle of the point (x, y). *)
Lemma arctan2_polar (x y : R) :
  sqrt (x * x + y * y) * cos (Np.arctan2 y x) = x
  /\ sqrt (x * x + y * y) * sin (Np.arctan2 y x) = y.
Proof.
  unfold Np.arctan2.
  pose proof (sqrt_1_sqr_pos (y / x)) as HS.
  destruct (Rlt_dec 0 x) as [Hx | Hx].
  { rewrite hypot_pos, cos_atan, sin_atan by assumption.
    split; field; lra. }
  destruct (Rlt_dec x 0) as [Hx' | Hx'].
  { rewrite hypot_neg by assumption.
    destruct (Rle_dec 0 y) as [Hy | Hy].
    - rewrite neg_cos, neg_sin, cos_atan, sin_atan. split; field; lra.
    - rewrite cos_minus, sin_minus, cos_PI, sin_PI, cos_atan, sin_atan.
      split; field; lra. }
  assert (x = 0) by lra. subst x.
  replace (0 * 0 + y * y) with (y * y) by ring.
  destruct (Rlt_dec 0 y) as [Hy | Hy].
  { rewrite sqrt_square, cos_PI2, sin_PI2 by lra. split; ring. }
  destruct (Rlt_dec y 0) as [Hy' | Hy'].
  { replace (y * y) with (- y * - y) by ring.
    rewrite sqrt_square, cos_neg, sin_neg, cos_PI2, sin_PI2 by lra.
    split; ring. }
  assert (y = 0) by lra. subst y.
  rewrite Rmult_0_l, sqrt_0. split; ring.
Qed.

Lemma atan_nonpos (t : R) : t <= 0 -> atan t <= 0.
Proof.
  intros [Ht | ->]; [|rewrite atan_0; lra].
  left. rewrite <- atan_0. now apply atan_increasing.
Qed.

Lemma atan_pos (t : R) : 0 < t -> 0 < atan t.
Proof. intros Ht. rewrite <- atan_0. now apply atan_increasing. Qed.

Lemma arctan2_range (y x : R) : - PI < Np.arctan2 y x <= PI.
Proof.
  unfold Np.arctan2. pose proof PI_RGT_0 as Hpi.
  pose proof (atan_bound (y / x)) as Hb.
  destruct (Rlt_dec 0 x) as [Hx | Hx]; [lra|].
  destruct (Rlt_dec x 0) as [Hx' | Hx'].
  { destruct (Rle_dec 0 y) as [Hy | Hy].
    - assert (Ht : y / x <= 0).
      { unfold Rdiv. pose proof (Rinv_lt_0_compat x Hx'). nra. }
      pose proof (atan_nonpos _ Ht). lra.
    - assert (Ht : 0 < y / x).
      { unfold Rdiv. pose proof (Rinv_lt_0_compat x Hx'). nra. }
      pose proof (atan_pos _ Ht). lra. }
  destruct (Rlt_dec 0 y); [lra|].
  destruct (Rlt_dec y 0); lra.
Qed.

Lemma degrees_of_range (a : R) :
  - PI <= a <= PI -> -180 <= a * r2d <= 180.
Proof.
  intros Ha. pose proof PI_RGT_0 as Hpi. pose proof r2d_pos as Hr.
  assert (E : PI * r2d = 180) by (unfold r2d; field; lra).
  nra.
Qed.

Lemma lon_of_sample_range (s : Np.vector) :
  -180 <= lon_of_sample s * r2d <= 180.
Proof.
  apply degrees_of_range. unfold lon_of_sample.
  pose proof (arctan2_range (nth 1 s 0) (nth 0 s 0)). lra.
Qed.

Lemma colat_of_sample_range (s : Np.vector) :
  0 <= colat_of_sample s * r2d <= 180.
Proof.
  unfold colat_of_sample.
  pose proof (acos_bound (nth 2 s 0 / sqrt (Np.dot s s))) as Hb.
  pose proof PI_RGT_0 as Hpi. pose proof r2d_pos as Hr.
  assert (E : PI * r2d = 180) by (unfold r2d; field; lra).
  nra.
Qed.

(** A unit vector is recovered from the angles computed for it. *)
Lemma roundtrip_unit (x y z : R) :
  x * x + y * y + z * z = 1 ->
  unit_vector (lon_of_sample [x; y; z] * r2d, colat_of_sample [x; y; z] * r2d)
  = [x; y; z].
Proof.
  intros Hn. rewrite unit_vector_radians.
  unfold colat_of_sample, lon_of_sample. cbn [nth Np.dot].
  replace (x * x + (y * y + (z * z + 0))) with 1 by lra.
  rewrite sqrt_1. replace (z / 1) with z by field.
  assert (Hz : -1 <= z <= 1) by nra.
  rewrite cos_acos, sin_acos by assumption.
  replace (1 - z²) with (x * x + y * y) by (unfold Rsqr; lra).
  destruct (arctan2_polar x y) as [Hc Hs]. rewrite Hc, Hs. reflexivity.
Qed.

(** * The claims on sampling *)

Lemma nth_map_seq {A : Type} (f : nat -> A) (n i : nat) (d : A) :
  (i < n)%nat -> nth i (map f (seq 0 n)) d = f i.
Proof.
  intros Hi. rewrite (nth_indep _ d (f 0%nat)) by now rewrite length_map, length_seq.
  rewrite (map_nth f), seq_nth by assumption. reflexivity.
Qed.

(** The generator for a single sample ([size=None]). *)
Lemma generator_unsized (r0 r1 r2 : Np.vector) (k : R) (g : St.rng) :
  cartesian_sample_generator [r0; r1; r2] k None g
  = ([ mat_vec [r0; r1; r2]
         (unrotated_sample k (St.draws g (St.pos g))
                           (2 * PI * St.draws g (St.pos g + 1)%nat)) ],
     St.advance 1 (St.advance 1 g)).
Proof.
  unfold cartesian_sample_generator, St.uniform_rvs.
  cbn [St.pos St.draws St.advance].
  replace (0 + 1 * St.draws g (St.pos g)) with (St.draws g (St.pos g)) by ring.
  replace (0 + 2 * PI * St.draws g (St.pos g + 1)%nat)
    with (2 * PI * St.draws g (St.pos g + 1)%nat) by ring.
  rewrite sample_z_scalar. reflexivity.
Qed.

(** C2.  The generator returns, for every sample, the Euler matrix
    applied to the vector (sqrt(1 - z^2) cos phi, sqrt(1 - z^2) sin phi, z),
    where z is 2u - 1 when kappa is below [eps] and
    1 + (1/kappa) ln(u + (1 - u) exp(-2 kappa)) otherwise, u being the
    sample's uniform draw and phi an independent draw scaled to
    [0, 2 pi]; for a sized call and for a single sample alike. *)
Theorem generator_coordinates (alpha beta gamma k : R) (n : nat) (g : St.rng) :
  let rot := construct_euler_rotation_matrix alpha beta gamma in
  cartesian_sample_generator rot k (Some n) g
  = (map (fun i => mat_vec rot (unrotated_sample k (zeta_draw g i)
                                                 (phi_draw g n i)))
         (seq 0 n),
     St.advance n (St.advance n g))
  /\ cartesian_sample_generator rot k None g
     = ([ mat_vec rot (unrotated_sample k (St.draws g (St.pos g))
                         (2 * PI * St.draws g (St.pos g + 1)%nat)) ],
        St.advance 1 (St.advance 1 g))
  /\ (forall u phi,
         unrotated_sample k u phi
         = [ sqrt (1 - z_of_draw k u * z_of_draw k u) * cos phi;
             sqrt (1 - z_of_draw k u * z_of_draw k u) * sin phi;
             z_of_draw k u ])
  /\ (forall u,
         z_of_draw k u
         = if Rlt_dec k eps then 2 * u - 1
           else 1 + 1 / k * ln (u + (1 - u) * exp (-2 * k))).
Proof.
  cbv zeta.
  destruct (rotation_rows alpha beta gamma) as (r0 & r1 & r2 & E).
  rewrite E. split; [apply generator_sized|].
  split; [apply generator_unsized|]. split; reflexivity.
Qed.

(** With an integer size the result has shape [[size, 2]]. *)
Lemma random_sized_shape (self : VonMisesFisher) (n : nat) (g : St.rng) :
  exists rows, fst (random self (Some n) g) = Ok rows /\ has_shape n 2 rows.
Proof.
  rewrite random_sized. eexists. split; [reflexivity|]. split.
  - now rewrite length_map, length_seq.
  - apply Forall_forall. intros row Hrow. apply in_map_iff in Hrow.
    destruct Hrow as [i [<- _]]. reflexivity.
Qed.

(** C5.  With [size] unset the call does not return a pair: after the
    two draws of the generator, [np.fromiter] is handed [count=None]
    and raises [TypeError]. *)
Theorem random_unset_size_raises (self : VonMisesFisher) (g : St.rng) :
  random self None g = (Raise TypeError, St.advance 1 (St.advance 1 g)).
Proof.
  unfold random, draw_values.
  destruct (rotation_rows 0 (snd (lon_colat self) * d2r)
                          (fst (lon_colat self) * d2r)) as (r0 & r1 & r2 & E).
  rewrite E, generator_unsized. reflexivity.
Qed.

(** * Round trip between Cartesian and angular coordinates *)

Lemma unit_vector_period (lon colat : R) :
  unit_vector (lon + 360, colat) = unit_vector (lon, colat).
Proof.
  unfold unit_vector. cbn [fst snd]. pose proof PI_RGT_0.
  replace ((lon + 360) * d2r) with (lon * d2r + 2 * PI)
    by (unfold d2r; field).
  rewrite cos_plus, sin_plus, cos_2PI, sin_2PI.
  repeat (f_equal; try ring).
Qed.

(** C8.  Every unit Cartesian vector is reproduced by converting it to
    (longitude, colatitude) with arccos and arctan2 and back with
    sines and cosines.  The colatitude computed lies in [0, 180], the
    longitude in (-180, 180], and the vector has angular coordinates
    with that colatitude and a longitude in [0, 360): the unit vectors
    with angular coordinates in those ranges are all unit vectors. *)
Theorem cartesian_roundtrip (x y z : R) :
  x * x + y * y + z * z = 1 ->
  let lon := lon_of_sample [x; y; z] * r2d in
  let colat := colat_of_sample [x; y; z] * r2d in
  unit_vector (lon, colat) = [x; y; z]
  /\ 0 <= colat <= 180
  /\ -180 < lon <= 180
  /\ exists lon', 0 <= lon' < 360 /\ unit_vector (lon', colat) = [x; y; z].
Proof.
  intros Hn. cbv zeta.
  pose proof (roundtrip_unit x y z Hn) as Hr.
  pose proof (colat_of_sample_range [x; y; z]) as Hc.
  assert (Hl : -180 < lon_of_sample [x; y; z] * r2d <= 180).
  { unfold lon_of_sample.
    pose proof (arctan2_range (nth 1 [x; y; z] 0) (nth 0 [x; y; z] 0)) as Ha.
    pose proof PI_RGT_0 as Hpi. pose proof r2d_pos as Hp.
    assert (E : PI * r2d = 180) by (unfold r2d; field; lra).
    nra. }
  split; [exact Hr|]. split; [exact Hc|]. split; [exact Hl|].
  destruct (Rlt_dec (lon_of_sample [x; y; z] * r2d) 0) as [Hneg | Hpos].
  - exists (lon_of_sample [x; y; z] * r2d + 360).
    split; [lra|]. rewrite unit_vector_period. exact Hr.
  - exists (lon_of_sample [x; y; z] * r2d). split; [lra | exact Hr].
Qed.

(** An instance: the vector (0, -1, 0), at longitude 270, which arctan2
    reports as -90. *)
Lemma cartesian_roundtrip_witness :
  unit_vector (lon_of_sample [0; -1; 0] * r2d, colat_of_sample [0; -1; 0] * r2d)
  = [0; -1; 0]
  /\ 0 <= colat_of_sample [0; -1; 0] * r2d <= 180
  /\ -180 < lon_of_sample [0; -1; 0] * r2d <= 180
  /\ exists lon', 0 <= lon' < 360
                  /\ unit_vector (lon', colat_of_sample [0; -1; 0] * r2d)
                     = [0; -1; 0].
Proof. apply (cartesian_roundtrip 0 (-1) 0). lra. Defined.

(** * Ranges of the returned angles *)

Lemma arctan2_neg_axis : Np.arctan2 0 (-1) = PI.
Proof.
  unfold Np.arctan2.
  destruct (Rlt_dec 0 (-1)) as [H | _]; [lra|].
  destruct (Rlt_dec (-1) 0) as [_ | H]; [|lra].
  destruct (Rle_dec 0 0) as [_ | H]; [|lra].
  replace (0 / -1) with 0 by field. rewrite atan_0. ring.
Qed.

(** The sample drawn at the pole from draws 1/2 and 1/2 is the point
    (-1, 0, 0). *)
Lemma sample_pole_half :
  cartesian_sample vmf_pole rng_half 1 0 = [-1; 0; 0].
Proof.
  unfold cartesian_sample, rotation_of. rewrite euler_rotation_entries.
  cbn [vmf_pole lon_colat kappa fst snd].
  replace (0 * d2r) with 0 by ring. rewrite cos_0, sin_0.
  unfold unrotated_sample, z_of_draw.
  destruct (Rlt_dec 0 eps) as [_ | H]; [|exfalso; apply H, eps_pos].
  unfold zeta_draw, phi_draw. cbn [rng_half St.draws St.pos].
  replace (2 * PI * (1 / 2)) with PI by field. rewrite cos_PI, sin_PI.
  replace (1 - (2 * (1 / 2) - 1) * (2 * (1 / 2) - 1)) with 1 by field.
  rewrite sqrt_1. cbn [mat_vec map Np.dot].
  repeat (f_equal; try field).
Qed.

(** A longitude of exactly 180 degrees is returned. *)
Lemma random_longitude_180 :
  fst (random vmf_pole (Some 1%nat) rng_half) = Ok [[180; 90]].
Proof.
  rewrite random_sized. cbn [fst seq map]. rewrite sample_pole_half.
  unfold lon_colat_of_sample, lon_of_sample, colat_of_sample. cbn [nth].
  rewrite arctan2_neg_axis.
  replace (0 / sqrt (Np.dot [-1; 0; 0] [-1; 0; 0])) with 0
    by (unfold Rdiv; ring).
  rewrite acos_0. pose proof PI_RGT_0.
  replace (PI * r2d) with 180 by (unfold r2d; field; lra).
  replace (PI / 2 * r2d) with 90 by (unfold r2d; field; lra).
  reflexivity.
Qed.

(** C10 (as stated) fails: the longitude returned at the pole from the
    draws 1/2 and 1/2 is 180, inside the range from 180 to 360. *)
Lemma random_longitude_reaches_180 :
  ~ angles_as_claimed vmf_pole 1 rng_half.
Proof.
  intros (rows & Hr & Hf). rewrite random_longitude_180 in Hr.
  injection Hr as <-. apply Forall_inv in Hf. cbn [nth] in Hf.
  destruct Hf as (_ & _ & Hf). apply Hf. lra.
Qed.

(** * Further properties of the rotation builder *)

Ltac trig_atoms t :=
  let H := fresh "Htrig" in
  pose proof (sin_cos_sq t) as H;
  let c := fresh "c" in
  let s := fresh "s" in
  set (c := cos t) in *; set (s := sin t) in *;
  clearbody c s.

(** X1.  The built matrix is a proper rotation: its transpose is its
    inverse on both sides and its determinant is 1. *)
Theorem euler_rotation_orthogonal (alpha beta gamma : R) :
  let rot := construct_euler_rotation_matrix alpha beta gamma in
  Np.matmul rot (Np.transpose rot) = identity3
  /\ Np.matmul (Np.transpose rot) rot = identity3
  /\ det3 rot = 1.
Proof.
  cbv zeta. rewrite euler_rotation_entries.
  cbv [Np.matmul Np.transpose Np.zip_with Np.dot map det3 identity3].
  trig_atoms alpha. trig_atoms beta. trig_atoms gamma.
  split; [|split]; [repeat (f_equal; try nsatz) .. | nsatz].
Qed.

(** X2.  Transposing the matrix is building it for the negated angles in
    reverse order, which therefore undoes the rotation. *)
Theorem euler_rotation_inverse (alpha beta gamma : R) :
  Np.transpose (construct_euler_rotation_matrix alpha beta gamma)
  = construct_euler_rotation_matrix (- gamma) (- beta) (- alpha)
  /\ Np.matmul (construct_euler_rotation_matrix (- gamma) (- beta) (- alpha))
               (construct_euler_rotation_matrix alpha beta gamma)
     = identity3.
Proof.
  rewrite !euler_rotation_entries. rewrite !cos_neg, !sin_neg.
  cbv [Np.matmul Np.transpose Np.zip_with Np.dot map identity3].
  trig_atoms alpha. trig_atoms beta. trig_atoms gamma.
  split; repeat (f_equal; try nsatz).
Qed.

(** X3.  With no rotation about the y axis the two rotations about the z
    axis add up. *)
Theorem euler_rotation_same_axis (alpha gamma : R) :
  construct_euler_rotation_matrix alpha 0 gamma = Rz (alpha + gamma).
Proof.
  rewrite euler_rotation_entries. unfold Rz.
  rewrite cos_0, sin_0, cos_plus, sin_plus.
  repeat (f_equal; try ring).
Qed.

(** X4.  The rotation [random] builds sends the pole (0, 0, 1), around which
    the samples are generated, to the mean vector [__init__] stores. *)
Theorem rotation_sends_pole_to_mean (lc : R * R) (k : R) :
  exists self,
    init lc k = Ok self
    /\ mat_vec (rotation_of self) [0; 0; 1] = mu self.
Proof.
  eexists. split; [apply init_total|].
  unfold rotation_of. cbn [lon_colat mu]. rewrite euler_rotation_entries.
  destruct lc as [lon colat]. unfold unit_vector. cbn [fst snd mat_vec map Np.dot].
  rewrite cos_0, sin_0. repeat (f_equal; try ring).
Qed.

Lemma rotated_dot_mean (lc : R * R) (k x y z : R) :
  Np.dot (mat_vec (rotation_of (vmf lc k)) [x; y; z]) (unit_vector lc) = z.
Proof.
  unfold rotation_of, vmf. cbn [lon_colat].
  rewrite euler_rotation_entries. destruct lc as [lon colat].
  unfold unit_vector. cbn [fst snd mat_vec map Np.dot].
  rewrite cos_0, sin_0.
  trig_atoms (colat * d2r). trig_atoms (lon * d2r).
  nsatz.
Qed.

(** * The sampler inverts the distribution function of z *)

Lemma exp_m2k_lt_1 (k : R) : ~ k < eps -> 0 < exp (-2 * k) < 1.
Proof.
  intros Hk. pose proof eps_pos. split; [apply exp_pos|].
  rewrite <- exp_0. apply exp_increasing. lra.
Qed.

Lemma z_of_draw_0 (k : R) : z_of_draw k 0 = -1.
Proof.
  unfold z_of_draw. destruct (Rlt_dec k eps) as [_ | Hk]; [ring|].
  pose proof eps_pos.
  replace (0 + (1 - 0) * exp (-2 * k)) with (exp (-2 * k)) by ring.
  rewrite ln_exp. field. lra.
Qed.

Lemma z_of_draw_1 (k : R) : z_of_draw k 1 = 1.
Proof.
  unfold z_of_draw. destruct (Rlt_dec k eps) as [_ | Hk]; [ring|].
  replace (1 + (1 - 1) * exp (-2 * k)) with 1 by ring.
  rewrite ln_1. ring.
Qed.

Lemma z_of_draw_mono (k u1 u2 : R) :
  0 <= u1 -> u1 <= u2 -> z_of_draw k u1 <= z_of_draw k u2.
Proof.
  intros H0 H12. unfold z_of_draw.
  destruct (Rlt_dec k eps) as [_ | Hk]; [lra|].
  pose proof eps_pos. pose proof (exp_m2k_lt_1 k Hk) as He.
  set (e := exp (-2 * k)) in *.
  assert (Hl : ln (u1 + (1 - u1) * e) <= ln (u2 + (1 - u2) * e))
    by (apply ln_le_mono; nra).
  assert (Hi : 0 < 1 / k) by (apply Rdiv_lt_0_compat; lra).
  nra.
Qed.

Lemma vmf_z_cdf_of_draw (k u : R) :
  0 <= u <= 1 -> vmf_z_cdf k (z_of_draw k u) = u.
Proof.
  intros Hu. unfold vmf_z_cdf, z_of_draw.
  destruct (Rlt_dec k eps) as [_ | Hk]; [field|].
  pose proof eps_pos. pose proof (exp_m2k_lt_1 k Hk) as He.
  set (e := exp (-2 * k)) in *.
  assert (Hw : 0 < u + (1 - u) * e) by nra.
  replace (k * (1 + 1 / k * ln (u + (1 - u) * e) - 1))
    with (ln (u + (1 - u) * e)) by (field; lra).
  rewrite exp_ln by assumption. field. lra.
Qed.

(** X7.  Lines 76-79 invert the distribution function of z: applied to the
    z coordinates computed from uniform draws in [0, 1] it gives the
    draws back, in both branches on kappa. *)
Theorem sample_z_inverts_cdf (k : R) (us : list R) :
  Forall (fun u => 0 <= u <= 1) us ->
  exists zs,
    sample_z k (Np.Array us) = Np.Array zs
    /\ map (vmf_z_cdf k) zs = us.
Proof.
  intros Hu. rewrite sample_z_array. eexists. split; [reflexivity|].
  rewrite map_map. induction Hu as [|u us Hu _ IH]; [reflexivity|].
  cbn [map]. rewrite IH, vmf_z_cdf_of_draw by assumption. reflexivity.
Qed.

(** An instance: three draws at concentration 5. *)
Lemma sample_z_inverts_cdf_witness :
  exists zs,
    sample_z 5 (Np.Array [0; 1 / 2; 1]) = Np.Array zs
    /\ map (vmf_z_cdf 5) zs = [0; 1 / 2; 1].
Proof.
  apply (sample_z_inverts_cdf 5 [0; 1 / 2; 1]).
  repeat constructor; lra.
Defined.

Lemma derivable_pt_lim_affine (a b z : R) :
  derivable_pt_lim (fun t => a * t + b) z a.
Proof.
  intros e He. exists (mkposreal 1 Rlt_0_1). intros h Hh _.
  replace ((a * (z + h) + b - (a * z + b)) / h - a) with 0 by (field; assumption).
  rewrite Rabs_R0. exact He.
Qed.

(** The distribution function is 0 at z = -1, 1 at z = 1, and its
    derivative in z is 2 pi times the exponential of the log-density
    expression at dot product z. *)
Lemma z_cdf_derivative (k z : R) :
  vmf_z_cdf k (-1) = 0
  /\ vmf_z_cdf k 1 = 1
  /\ derivable_pt_lim (vmf_z_cdf k) z (2 * PI * exp (logp_of_dot k z)).
Proof.
  pose proof PI_RGT_0 as Hpi. pose proof eps_pos as Heps.
  unfold logp_of_dot.
  destruct (Rlt_dec k eps) as [Hlt | Hge] eqn:Ek.
  - assert (Hf : forall t, 1 / 2 * t + 1 / 2 = vmf_z_cdf k t).
    { intros t. unfold vmf_z_cdf. rewrite Ek. field. }
    rewrite <- !Hf. split; [lra|]. split; [lra|].
    apply (derivable_pt_lim_ext _ _ _ _ Hf).
    destruct (Rle_dec eps k) as [H | _]; [lra|].
    rewrite exp_ln by (apply Rdiv_lt_0_compat; lra).
    replace (2 * PI * (1 / (4 * PI))) with (1 / 2) by (field; lra).
    apply derivable_pt_lim_affine.
  - pose proof (exp_m2k_lt_1 k Hge) as He.
    assert (Hf : forall t,
               / (1 - exp (-2 * k)) * (exp (k * t + - k) - exp (-2 * k))
               = vmf_z_cdf k t).
    { intros t. unfold vmf_z_cdf. rewrite Ek.
      replace (k * (t - 1)) with (k * t + - k) by ring. field. lra. }
    rewrite <- !Hf. split; [|split].
    + replace (k * -1 + - k) with (-2 * k) by ring. ring.
    + replace (k * 1 + - k) with 0 by ring. rewrite exp_0. field. lra.
    + apply (derivable_pt_lim_ext _ _ _ _ Hf).
      destruct (Rle_dec eps k) as [_ | H]; [|lra].
      assert (HA : 0 < - k / (2 * PI * (exp (-2 * k) - 1))).
      { replace (- k / (2 * PI * (exp (-2 * k) - 1)))
          with (k / (2 * PI * (1 - exp (-2 * k)))) by (field; lra).
        apply Rdiv_lt_0_compat; nra. }
      rewrite exp_plus, exp_ln by assumption.
      replace (2 * PI * (- k / (2 * PI * (exp (-2 * k) - 1)) * exp (k * (z - 1))))
        with (/ (1 - exp (-2 * k)) * (exp (k * z + - k) * k - 0))
        by (replace (k * (z - 1)) with (k * z + - k) by ring; field; lra).
      apply (derivable_pt_lim_scal
               (fun t => exp (k * t + - k) - exp (-2 * k))).
      apply (derivable_pt_lim_minus (fun t => exp (k * t + - k))
                                    (fun _ => exp (-2 * k))).
      * apply (derivable_pt_lim_comp (fun t => k * t + - k) exp).
        -- apply derivable_pt_lim_affine.
        -- apply derivable_pt_lim_exp.
      * apply (derivable_pt_lim_const (exp (-2 * k))).
Qed.

(** * Further properties of the log-density *)

Lemma list_pair_ind (P : list R -> Prop) :
  P [] -> (forall a, P [a]) -> (forall a b l, P l -> P (a :: b :: l)) ->
  forall l, P l.
Proof.
  intros H0 H1 H2 l.
  assert (H : P l /\ forall a, P (a :: l)).
  { induction l as [|b l [IH1 IH2]]; [split; [exact H0 | exact H1]|].
    split; [apply IH2|]. intros a. apply H2, IH1. }
  apply H.
Qed.

Lemma reshape_rows2_cases (data : list R) :
  if Nat.even (length data)
  then exists rows, Tt.reshape_rows2 data = Ok rows
                    /\ length rows = Nat.div2 (length data)
  else Tt.reshape_rows2 data = Raise ValueError.
Proof.
  induction data as [| a | a b l IH] using list_pair_ind.
  - exists []. split; reflexivity.
  - reflexivity.
  - cbn [length Nat.even Nat.div2 Tt.reshape_rows2].
    destruct (Nat.even (length l)).
    + destruct IH as (rows & -> & Hl). exists ([a; b] :: rows).
      split; [reflexivity|]. cbn [length]. now rewrite Hl.
    + rewrite IH. reflexivity.
Qed.

Lemma bound_length (l : list R) (conds : list bool) :
  length (Pm.bound l conds) = length l.
Proof.
  unfold Pm.bound, Tt.switch.
  destruct (forallb (fun c => c) conds); now rewrite length_map.
Qed.

(** X9.  [logp] needs an even number of input values: with an odd number
    the reshape to rows of two raises [ValueError]; with an even number
    it returns one entry per pair, whatever the values are. *)
Theorem logp_needs_pairs (self : VonMisesFisher) (data : list R) :
  if Nat.even (length data)
  then exists out, logp self data = Ok out
                   /\ length out = Nat.div2 (length data)
  else logp self data = Raise ValueError.
Proof.
  unfold logp.
  pose proof (reshape_rows2_cases (map (fun v => v * d2r) data)) as H.
  rewrite length_map in H.
  destruct (Nat.even (length data)).
  - destruct H as (rows & -> & Hl). cbn [bind]. eexists. split; [reflexivity|].
    rewrite bound_length. unfold Tt.switch.
    destruct (Tt.geb (kappa self) eps);
      rewrite length_map; unfold Tt.dot; rewrite length_map, logp_point_rows,
        length_map; exact Hl.
  - rewrite H. reflexivity.
Qed.

(** X10.  Longitudes count modulo 360 degrees: adding a full turn to every
    longitude of the input, or to the longitude of the mean direction,
    changes nothing in what [logp] returns. *)
Theorem logp_longitude_periodic (lc : R * R) (k : R) (ps : list (R * R)) :
  logp (vmf lc k) (flatten_pairs (map (fun p => (fst p + 360, snd p)) ps))
  = logp (vmf lc k) (flatten_pairs ps)
  /\ logp (vmf (fst lc + 360, snd lc) k) (flatten_pairs ps)
     = logp (vmf lc k) (flatten_pairs ps).
Proof.
  split.
  - rewrite !logp_bound_form, map_map. f_equal. f_equal.
    + apply map_ext. intros [lon colat]. unfold vmf_log_density.
      cbn [fst snd]. now rewrite unit_vector_period.
    + f_equal. induction ps as [|p ps IH]; [reflexivity|].
      cbn [map forallb]. now rewrite IH.
  - destruct lc as [lon colat]. unfold vmf. cbn [fst snd].
    now rewrite unit_vector_period.
Qed.

Lemma dot_comm (u v : list R) : Np.dot u v = Np.dot v u.
Proof.
  revert v. induction u as [|a u IH]; intros [|b v]; cbn [Np.dot];
    try reflexivity.
  rewrite IH. ring.
Qed.

Lemma logp_single (self : VonMisesFisher) (p : R * R) :
  in_support p ->
  logp self (flatten_pairs [p]) = Ok [Tt.Fin (vmf_log_density self p)].
Proof.
  intros Hp. rewrite logp_bound_form. apply in_support_b_spec in Hp.
  unfold Pm.bound, Tt.switch. cbn [forallb map]. now rewrite Hp.
Qed.

Lemma vmf_log_density_of_dot (self : VonMisesFisher) (p : R * R) :
  vmf_log_density self p
  = logp_of_dot (kappa self) (Np.dot (unit_vector p) (mu self)).
Proof. reflexivity. Qed.

(** X11.  The density is symmetric in the point and the mean direction. *)
Theorem logp_symmetric (a b : R * R) (k : R) :
  in_support a ->
  in_support b ->
  logp (vmf a k) (flatten_pairs [b]) = logp (vmf b k) (flatten_pairs [a]).
Proof.
  intros Ha Hb. rewrite !logp_single by assumption.
  unfold vmf_log_density, vmf. cbn [kappa mu].
  now rewrite (dot_comm (unit_vector b)).
Qed.

(** An instance: the pole and a point on the equator. *)
Lemma logp_symmetric_witness :
  logp (vmf (0, 0) 3) (flatten_pairs [(40, 90)])
  = logp (vmf (40, 90) 3) (flatten_pairs [(0, 0)]).
Proof.
  apply (logp_symmetric (0, 0) (40, 90) 3); unfold in_support; cbn [snd]; lra.
Defined.

Lemma logp_of_dot_mono (k d1 d2 : R) :
  0 <= k -> d1 <= d2 -> logp_of_dot k d1 <= logp_of_dot k d2.
Proof.
  intros Hk Hd. unfold logp_of_dot.
  destruct (Rle_dec eps k); [nra | lra].
Qed.

(** X12.  For kappa >= 0 the log-density is largest at the mean direction
    and nowhere lower than 2 kappa below that maximum. *)
Theorem logp_maximal_at_mean (lc p : R * R) (k : R) :
  0 <= k ->
  in_support lc ->
  in_support p ->
  exists v vmean,
    logp (vmf lc k) (flatten_pairs [p]) = Ok [Tt.Fin v]
    /\ logp (vmf lc k) (flatten_pairs [lc]) = Ok [Tt.Fin vmean]
    /\ vmean - 2 * k <= v <= vmean.
Proof.
  intros Hk Hlc Hp. rewrite !logp_single by assumption.
  do 2 eexists. split; [reflexivity|]. split; [reflexivity|].
  rewrite !vmf_log_density_of_dot. unfold vmf. cbn [kappa mu].
  change (Np.dot (unit_vector lc) (unit_vector lc)) with (norm2 (unit_vector lc)).
  rewrite unit_vector_norm.
  pose proof (unit_vector_dot_bound p lc) as Hd.
  pose proof (logp_of_dot_mono k _ _ Hk (proj2 Hd)) as Hhi.
  split; [|exact Hhi].
  unfold logp_of_dot. destruct (Rle_dec eps k); nra.
Qed.

(** An instance: mean on the equator, concentration 10, evaluated at
    the pole. *)
Lemma logp_maximal_at_mean_witness :
  exists v vmean,
    logp (vmf (0, 90) 10) (flatten_pairs [(0, 0)]) = Ok [Tt.Fin v]
    /\ logp (vmf (0, 90) 10) (flatten_pairs [(0, 90)]) = Ok [Tt.Fin vmean]
    /\ vmean - 2 * 10 <= v <= vmean.
Proof.
  apply (logp_maximal_at_mean (0, 90) (0, 0) 10);
    unfold in_support; cbn [snd]; lra.
Defined.

(** X13.  Above the threshold the logarithm is taken of a positive number,
    and the value returned is the logarithm of the Von Mises-Fisher
    density kappa / (2 pi (1 - exp(-2 kappa))) * exp(kappa (dot - 1)). *)
Theorem logp_exp_is_density (self : VonMisesFisher) (p : R * R) :
  eps <= kappa self ->
  in_support p ->
  exists v,
    logp self (flatten_pairs [p]) = Ok [Tt.Fin v]
    /\ 0 < - kappa self / (2 * PI * Tt.expm1 (-2 * kappa self))
    /\ exp v = kappa self / (2 * PI * (1 - exp (-2 * kappa self)))
               * exp (kappa self * (Np.dot (unit_vector p) (mu self) - 1)).
Proof.
  intros Hk Hp. rewrite logp_single by assumption.
  eexists. split; [reflexivity|].
  pose proof PI_RGT_0 as Hpi. pose proof eps_pos as Heps.
  assert (Hn : ~ kappa self < eps) by lra.
  pose proof (exp_m2k_lt_1 _ Hn) as He.
  unfold Tt.expm1, vmf_log_density.
  destruct (Rle_dec eps (kappa self)) as [_ | H]; [|lra].
  set (e := exp (-2 * kappa self)) in *.
  assert (HA : - kappa self / (2 * PI * (e - 1))
               = kappa self / (2 * PI * (1 - e))) by (field; lra).
  assert (Hpos : 0 < kappa self / (2 * PI * (1 - e)))
    by (apply Rdiv_lt_0_compat; nra).
  split; [rewrite HA; exact Hpos|].
  rewrite exp_plus, HA, exp_ln by exact Hpos. reflexivity.
Qed.

(** An instance: concentration 10 at the pole. *)
Lemma logp_exp_is_density_witness :
  exists v,
    logp (vmf (0, 0) 10) (flatten_pairs [(0, 0)]) = Ok [Tt.Fin v]
    /\ 0 < - kappa (vmf (0, 0) 10) / (2 * PI * Tt.expm1 (-2 * kappa (vmf (0, 0) 10)))
    /\ exp v = kappa (vmf (0, 0) 10)
               / (2 * PI * (1 - exp (-2 * kappa (vmf (0, 0) 10))))
               * exp (kappa (vmf (0, 0) 10)
                      * (Np.dot (unit_vector (0, 0)) (mu (vmf (0, 0) 10)) - 1)).
Proof.
  apply (logp_exp_is_density (vmf (0, 0) 10) (0, 0)).
  - cbn [kappa vmf]. unfold eps. lra.
  - unfold in_support. cbn [snd]. lra.
Defined.

(** X14.  Every kappa below the threshold, negative ones included, is treated
    as concentration zero by the sampler and by the log-density. *)
Theorem small_kappa_is_uniform (lc : R * R) (k : R)
        (zeta : Np.ndarray) (data : list R) :
  k < eps ->
  sample_z k zeta = sample_z 0 zeta
  /\ logp (vmf lc k) data = logp (vmf lc 0) data.
Proof.
  intros Hk. pose proof eps_pos as He. split.
  - unfold sample_z.
    destruct (Rlt_dec k eps) as [_ | H]; [|lra].
    destruct (Rlt_dec 0 eps) as [_ | H]; [reflexivity | lra].
  - unfold logp, vmf. cbn [kappa mu].
    destruct (Tt.reshape_rows2 (map (fun v => v * d2r) data)) as [rows | e];
      [|reflexivity].
    cbn [bind]. unfold Tt.switch, Tt.geb.
    destruct (Rge_dec k eps) as [H | _]; [lra|].
    destruct (Rge_dec 0 eps) as [H | _]; [lra | reflexivity].
Qed.

(** An instance: concentration -1. *)
Lemma small_kappa_is_uniform_witness :
  sample_z (-1) (Np.Array [1 / 4]) = sample_z 0 (Np.Array [1 / 4])
  /\ logp (vmf (0, 90) (-1)) [10; 20] = logp (vmf (0, 90) 0) [10; 20].
Proof.
  apply (small_kappa_is_uniform (0, 90) (-1) (Np.Array [1 / 4]) [10; 20]).
  unfold eps. lra.
Defined.

(** * Further properties of sampling *)

Lemma z_of_draw_range (k u : R) : 0 <= u <= 1 -> -1 <= z_of_draw k u <= 1.
Proof.
  intros [H0 H1].
  pose proof (z_of_draw_mono k 0 u (Rle_refl 0) H0) as Ha.
  pose proof (z_of_draw_mono k u 1 H0 H1) as Hb.
  rewrite z_of_draw_0 in Ha. rewrite z_of_draw_1 in Hb. lra.
Qed.

Lemma cartesian_sample_unit (self : VonMisesFisher) (g : St.rng) (n i : nat) :
  0 <= zeta_draw g i <= 1 -> norm2 (cartesian_sample self g n i) = 1.
Proof.
  intros Hu.
  rewrite <- (unrotated_sample_norm (kappa self) (zeta_draw g i)
                (phi_draw g n i) (z_of_draw_range _ _ Hu)).
  apply euler_rotation_isometry.
Qed.

Lemma cartesian_sample_roundtrip (self : VonMisesFisher) (g : St.rng)
      (n i : nat) :
  0 <= zeta_draw g i <= 1 ->
  unit_vector (lon_of_sample (cartesian_sample self g n i) * r2d,
               colat_of_sample (cartesian_sample self g n i) * r2d)
  = cartesian_sample self g n i.
Proof.
  intros Hu. pose proof (cartesian_sample_unit self g n i Hu) as Hs.
  revert Hs. unfold cartesian_sample, rotation_of.
  destruct (rotation_rows 0 (snd (lon_colat self) * d2r)
              (fst (lon_colat self) * d2r)) as (r0 & r1 & r2 & E).
  rewrite E. cbn [mat_vec map]. unfold norm2. cbn [Np.dot].
  intros Hs. apply roundtrip_unit. lra.
Qed.

(** The row-major data of the array [random] returns, as a batch of
    pairs. *)
Lemma concat_rows_flatten {A : Type} (a b : A -> R) (l : list A) :
  concat (map (fun i => [a i; b i]) l)
  = flatten_pairs (map (fun i => (a i, b i)) l).
Proof.
  induction l as [|x l IH]; [reflexivity|].
  cbn [map concat]. rewrite IH. reflexivity.
Qed.

Lemma random_rows_flatten (self : VonMisesFisher) (n : nat) (g : St.rng) :
  concat (map (fun i => lon_colat_of_sample (cartesian_sample self g n i))
              (seq 0 n))
  = flatten_pairs
      (map (fun i => (lon_of_sample (cartesian_sample self g n i) * r2d,
                      colat_of_sample (cartesian_sample self g n i) * r2d))
           (seq 0 n)).
Proof.
  apply (concat_rows_flatten
           (fun i => lon_of_sample (cartesian_sample self g n i) * r2d)
           (fun i => colat_of_sample (cartesian_sample self g n i) * r2d)).
Qed.

Lemma random_rows_in_support (self : VonMisesFisher) (n : nat) (g : St.rng) :
  forallb in_support_b
    (map (fun i => (lon_of_sample (cartesian_sample self g n i) * r2d,
                    colat_of_sample (cartesian_sample self g n i) * r2d))
         (seq 0 n)) = true.
Proof.
  apply forallb_in_support, Forall_forall. intros p Hp.
  apply in_map_iff in Hp. destruct Hp as (i & <- & _).
  unfold in_support. cbn [snd]. apply colat_of_sample_range.
Qed.

(** X17.  A call for n samples reads exactly the next 2 n draws of the random
    source: it leaves the source 2 n draws further, and two sources
    that agree on those draws give the same array. *)
Theorem random_reads_2n_draws (self : VonMisesFisher) (n : nat)
        (g g' : St.rng) :
  St.pos g' = St.pos g ->
  (forall j, (j < 2 * n)%nat ->
             St.draws g' (St.pos g + j)%nat = St.draws g (St.pos g + j)%nat) ->
  fst (random self (Some n) g') = fst (random self (Some n) g)
  /\ St.pos (snd (random self (Some n) g)) = (St.pos g + 2 * n)%nat
  /\ St.draws (snd (random self (Some n) g)) = St.draws g.
Proof.
  intros Hp Hd. rewrite !random_sized. cbn [fst snd St.pos St.draws St.advance].
  split; [|split; [lia | reflexivity]].
  f_equal. apply map_ext_in. intros i Hi. apply in_seq in Hi.
  unfold cartesian_sample, zeta_draw, phi_draw. rewrite Hp.
  rewrite (Hd i) by lia.
  replace (St.pos g + n + i)%nat with (St.pos g + (n + i))%nat by lia.
  rewrite (Hd (n + i)%nat) by lia. reflexivity.
Qed.

(** An instance: a source that differs from [rng_half] only after the
    first four draws. *)
Lemma random_reads_2n_draws_witness :
  fst (random vmf_pole (Some 2%nat)
              {| St.draws := fun j => if (j <? 4)%nat then 1 / 2 else 0;
                 St.pos := 0 |})
  = fst (random vmf_pole (Some 2%nat) rng_half)
  /\ St.pos (snd (random vmf_pole (Some 2%nat) rng_half)) = (St.pos rng_half + 2 * 2)%nat
  /\ St.draws (snd (random vmf_pole (Some 2%nat) rng_half)) = St.draws rng_half.
Proof.
  apply (random_reads_2n_draws vmf_pole 2 rng_half
           {| St.draws := fun j => if (j <? 4)%nat then 1 / 2 else 0;
              St.pos := 0 |}).
  - reflexivity.
  - intros j Hj. cbn [St.draws St.pos rng_half Nat.add].
    destruct (Nat.ltb_spec j 4); [reflexivity | lia].
Defined.

(** X8.  The sampler and the density agree.  For a distribution centred
    on the pole, [logp] at colatitude arccos z returns a finite value
    v, and the distribution function of z that [random] inverts goes
    from 0 at z = -1 to 1 at z = 1 with derivative 2 pi exp(v) at z:
    it is the integral over the circle of latitude of the density
    [logp] evaluates. *)
Theorem z_cdf_matches_logp_density (k z : R) :
  -1 <= z <= 1 ->
  exists v,
    logp (vmf (0, 0) k) (flatten_pairs [(0, acos z * r2d)]) = Ok [Tt.Fin v]
    /\ derivable_pt_lim (vmf_z_cdf k) z (2 * PI * exp v)
    /\ vmf_z_cdf k (-1) = 0
    /\ vmf_z_cdf k 1 = 1.
Proof.
  intros Hz.
  assert (Hs : in_support (0, acos z * r2d)).
  { unfold in_support. cbn [snd].
    pose proof (acos_bound z) as Hb. pose proof PI_RGT_0 as Hpi.
    pose proof r2d_pos as Hr.
    assert (E : PI * r2d = 180) by (unfold r2d; field; lra).
    nra. }
  rewrite logp_single by exact Hs. eexists. split; [reflexivity|].
  rewrite vmf_log_density_of_dot. cbn [kappa mu vmf].
  replace (Np.dot (unit_vector (0, acos z * r2d)) (unit_vector (0, 0))) with z.
  - destruct (z_cdf_derivative k z) as (H0 & H1 & Hd). auto.
  - replace (0, acos z * r2d) with (0 * r2d, acos z * r2d)
      by (f_equal; ring).
    rewrite unit_vector_radians.
    replace (0, 0) with (0 * r2d, 0 * r2d) by (f_equal; ring).
    rewrite unit_vector_radians. cbn [Np.dot].
    rewrite cos_0, sin_0, cos_acos by exact Hz. ring.
Qed.

(** An instance: the equator, z = 0, at concentration 5. *)
Lemma z_cdf_matches_logp_density_witness :
  exists v,
    logp (vmf (0, 0) 5) (flatten_pairs [(0, acos 0 * r2d)]) = Ok [Tt.Fin v]
    /\ derivable_pt_lim (vmf_z_cdf 5) 0 (2 * PI * exp v)
    /\ vmf_z_cdf 5 (-1) = 0
    /\ vmf_z_cdf 5 1 = 1.
Proof. apply (z_cdf_matches_logp_density 5 0). lra. Defined.

(** * The angular conversion depends on the direction only *)

Lemma arctan2_scale (c x y : R) :
  0 < c -> Np.arctan2 (c * y) (c * x) = Np.arctan2 y x.
Proof.
  intros Hc. unfold Np.arctan2.
  assert (Hq : x <> 0 -> c * y / (c * x) = y / x) by (intros; field; lra).
  destruct (Rlt_dec 0 (c * x)), (Rlt_dec 0 x); try (exfalso; nra).
  { now rewrite Hq by lra. }
  destruct (Rlt_dec (c * x) 0), (Rlt_dec x 0); try (exfalso; nra).
  { destruct (Rle_dec 0 (c * y)), (Rle_dec 0 y); try (exfalso; nra);
      now rewrite Hq by lra. }
  destruct (Rlt_dec 0 (c * y)), (Rlt_dec 0 y); try (exfalso; nra);
    [reflexivity|].
  destruct (Rlt_dec (c * y) 0), (Rlt_dec y 0); try (exfalso; nra);
    reflexivity.
Qed.

(** X18.  The angles computed for a Cartesian sample do not change when the
    sample is scaled by a positive factor: a sample that has drifted
    off the unit sphere is reported at the angles of its direction. *)
Theorem angles_scale_invariant (c x y z : R) :
  0 < c ->
  lon_colat_of_sample [c * x; c * y; c * z] = lon_colat_of_sample [x; y; z].
Proof.
  intros Hc. unfold lon_colat_of_sample, lon_of_sample, colat_of_sample.
  cbn [nth Np.dot]. rewrite arctan2_scale by exact Hc.
  do 4 f_equal.
  replace (c * x * (c * x) + (c * y * (c * y) + (c * z * (c * z) + 0)))
    with ((c * c) * (x * x + (y * y + (z * z + 0)))) by ring.
  rewrite sqrt_mult_alt by nra. rewrite sqrt_square by lra.
  set (N := x * x + (y * y + (z * z + 0))).
  assert (HN : 0 <= N) by (unfold N; nra).
  destruct (Req_dec (sqrt N) 0) as [E | E].
  - apply sqrt_eq_0 in E; [|exact HN].
    assert (Hz0 : z = 0) by (unfold N in E; nra).
    rewrite Hz0. unfold Rdiv. now rewrite Rmult_0_r, !Rmult_0_l.
  - field. split; [exact E | lra].
Qed.

(** An instance: a sample of norm 2. *)
Lemma angles_scale_invariant_witness :
  lon_colat_of_sample [2 * 0; 2 * 1; 2 * 0] = lon_colat_of_sample [0; 1; 0].
Proof. apply (angles_scale_invariant 2 0 1 0). lra. Defined.

(** * Sampling clear of the rounding edge *)

(** C7 asks for samples on the unit sphere at every draw of (0, 1).
    The program does not deliver that at draws within rounding of 0,
    where its z falls below -1 and the sample is nan; that edge is
    produced by the rounding of line 79 and has no counterpart in exact
    arithmetic, where z >= -1 + 2 u.  What follows is stated for draws
    of at least [draw_margin]. *)

(** Concentration only moves a sample towards the pole: the z computed
    for a draw u is at least the value 2 u - 1 of the uniform case. *)
Lemma z_of_draw_lower (k u : R) :
  0 <= u <= 1 -> -1 + 2 * u <= z_of_draw k u.
Proof.
  intros Hu. unfold z_of_draw.
  destruct (Rlt_dec k eps) as [_ | Hk]; [lra|].
  pose proof eps_pos as Heps. pose proof (exp_m2k_lt_1 k Hk) as He.
  set (e := exp (-2 * k)) in *.
  set (m := -2 * k * (1 - u)).
  pose proof (exp_pos m) as Hm.
  assert (Hta : exp m * (1 + (-2 * k - m)) <= e).
  { assert (E1 : e = exp m * exp (-2 * k - m))
      by (unfold e; rewrite <- exp_plus; f_equal; ring).
    rewrite E1. apply Rmult_le_compat_l; [lra|]. apply exp_ineq1_le. }
  assert (Htb : exp m * (1 + (0 - m)) <= 1).
  { assert (E0 : 1 = exp m * exp (0 - m))
      by (rewrite <- exp_plus, <- exp_0; f_equal; ring).
    rewrite E0 at 2. apply Rmult_le_compat_l; [lra|]. apply exp_ineq1_le. }
  assert (Hw : exp m <= u + (1 - u) * e).
  { assert (H1 : (1 - u) * (exp m * (1 + (-2 * k - m))) <= (1 - u) * e)
      by (apply Rmult_le_compat_l; lra).
    assert (H2 : u * (exp m * (1 + (0 - m))) <= u * 1)
      by (apply Rmult_le_compat_l; lra).
    replace (exp m)
      with ((1 - u) * (exp m * (1 + (-2 * k - m)))
            + u * (exp m * (1 + (0 - m))))
      by (unfold m; ring).
    lra. }
  assert (Hl : m <= ln (u + (1 - u) * e)).
  { rewrite <- (ln_exp m). apply ln_le_mono; assumption. }
  set (q := 1 / k * ln (u + (1 - u) * e)).
  assert (Hq : q * k = ln (u + (1 - u) * e)) by (unfold q; field; lra).
  unfold m in Hl. nra.
Qed.

(** With the draws clear of the edge, every z computed stays clear of
    -1, so that 1 - z z is positive with room for rounding. *)
Lemma z_clear_of_edge (k : R) (g : St.rng) (n i : nat) :
  draws_clear_of_edge g n -> (i < n)%nat ->
  -1 + draw_margin <= z_of_draw k (zeta_draw g i) <= 1.
Proof.
  intros Hd Hi. specialize (Hd i Hi).
  assert (H01 : 0 <= zeta_draw g i <= 1) by (unfold draw_margin in Hd; lra).
  pose proof (z_of_draw_lower k _ H01) as Hlo.
  pose proof (z_of_draw_range k _ H01) as Hr.
  unfold draw_margin in *. lra.
Qed.

Lemma rng_half_clear (n : nat) : draws_clear_of_edge rng_half n.
Proof.
  intros i _. unfold zeta_draw, draw_margin. cbn [St.draws rng_half]. lra.
Qed.

(** C10 (as the code has it).  For draws clear of the rounding edge,
    [random] returns an array of shape [[n, 2]] whose longitudes lie in
    [-180, 180] and whose colatitudes lie in [0, 180]; no longitude
    lies strictly between 180 and 360.  The z coordinates behind the
    rows lie in [-1 + draw_margin, 1]. *)
Theorem random_angle_ranges (self : VonMisesFisher) (n : nat) (g : St.rng) :
  draws_clear_of_edge g n ->
  exists rows,
    fst (random self (Some n) g) = Ok rows
    /\ has_shape n 2 rows
    /\ Forall (fun row => -180 <= nth 0 row 0 <= 180
                          /\ 0 <= nth 1 row 0 <= 180
                          /\ ~ (180 < nth 0 row 0 < 360)) rows
    /\ Forall (fun z => -1 + draw_margin <= z <= 1)
              (map (fun i => z_of_draw (kappa self) (zeta_draw g i)) (seq 0 n)).
Proof.
  intros Hd. rewrite random_sized. eexists. split; [reflexivity|].
  split; [|split].
  - split; [now rewrite length_map, length_seq|].
    apply Forall_forall. intros row Hrow. apply in_map_iff in Hrow.
    destruct Hrow as [i [<- _]]. reflexivity.
  - apply Forall_forall. intros row Hrow. apply in_map_iff in Hrow.
    destruct Hrow as [i [<- _]]. unfold lon_colat_of_sample. cbn [nth].
    pose proof (lon_of_sample_range (cartesian_sample self g n i)) as Hl.
    pose proof (colat_of_sample_range (cartesian_sample self g n i)) as Hc.
    repeat split; lra.
  - apply Forall_forall. intros z Hz. apply in_map_iff in Hz.
    destruct Hz as (i & <- & Hi). apply in_seq in Hi.
    apply (z_clear_of_edge _ g n i Hd). lia.
Qed.

(** An instance: the sample at the pole from the draws 1/2 and 1/2,
    whose longitude is 180. *)
Lemma random_angle_ranges_witness :
  exists rows,
    fst (random vmf_pole (Some 1%nat) rng_half) = Ok rows
    /\ has_shape 1 2 rows
    /\ Forall (fun row => -180 <= nth 0 row 0 <= 180
                          /\ 0 <= nth 1 row 0 <= 180
                          /\ ~ (180 < nth 0 row 0 < 360)) rows
    /\ Forall (fun z => -1 + draw_margin <= z <= 1)
              (map (fun i => z_of_draw (kappa vmf_pole) (zeta_draw rng_half i))
                   (seq 0 1)).
Proof. apply (random_angle_ranges vmf_pole 1 rng_half), rng_half_clear. Defined.

(** X5.  For draws clear of the rounding edge, the dot product of
    every generated sample with the mean vector is the z coordinate
    drawn for it, a number of [-1 + draw_margin, 1]: the rotation
    carries the angle to the pole over to the angle to the mean
    direction. *)
Theorem sample_dot_mean_is_z (lc : R * R) (k : R) (n : nat) (g : St.rng) :
  draws_clear_of_edge g n ->
  map (fun s => Np.dot s (mu (vmf lc k)))
      (fst (cartesian_sample_generator (rotation_of (vmf lc k)) k (Some n) g))
  = map (fun i => z_of_draw k (zeta_draw g i)) (seq 0 n)
  /\ Forall (fun z => -1 + draw_margin <= z <= 1)
            (map (fun i => z_of_draw k (zeta_draw g i)) (seq 0 n)).
Proof.
  intros Hd. split.
  - destruct (rotation_rows 0 (snd lc * d2r) (fst lc * d2r))
      as (r0 & r1 & r2 & E).
    assert (Er : rotation_of (vmf lc k) = [r0; r1; r2]) by exact E.
    rewrite Er, generator_sized. cbn [fst]. rewrite map_map.
    apply map_ext. intros i. rewrite <- Er.
    apply (rotated_dot_mean lc k).
  - apply Forall_forall. intros z Hz. apply in_map_iff in Hz.
    destruct Hz as (i & <- & Hi). apply in_seq in Hi.
    apply (z_clear_of_edge _ g n i Hd). lia.
Qed.

(** An instance: two samples around the mean (30, 60) at concentration 5. *)
Lemma sample_dot_mean_is_z_witness :
  map (fun s => Np.dot s (mu (vmf (30, 60) 5)))
      (fst (cartesian_sample_generator (rotation_of (vmf (30, 60) 5)) 5
              (Some 2%nat) rng_half))
  = map (fun i => z_of_draw 5 (zeta_draw rng_half i)) (seq 0 2)
  /\ Forall (fun z => -1 + draw_margin <= z <= 1)
            (map (fun i => z_of_draw 5 (zeta_draw rng_half i)) (seq 0 2)).
Proof. apply (sample_dot_mean_is_z (30, 60) 5 2 rng_half), rng_half_clear. Defined.

(** X6.  For every kappa, lines 76-79 map draws of [draw_margin, 1] to
    z coordinates of [-1 + draw_margin, 1], so that the radicand
    1 - z z of line 84 is not negative, and map the draw 1 to the pole,
    z = 1. *)
Theorem sample_z_range (k : R) (us : list R) :
  Forall (fun u => draw_margin <= u <= 1) us ->
  exists zs,
    sample_z k (Np.Array (us ++ [1])) = Np.Array (zs ++ [1])
    /\ length zs = length us
    /\ Forall (fun z => -1 + draw_margin <= z <= 1 /\ 0 <= 1 - z * z) zs.
Proof.
  intros Hu. rewrite sample_z_array, map_app. cbn [map].
  rewrite z_of_draw_1. eexists. split; [reflexivity|].
  split; [apply length_map|].
  apply Forall_forall. intros z Hz. apply in_map_iff in Hz.
  destruct Hz as (u & <- & Hin). rewrite Forall_forall in Hu.
  specialize (Hu u Hin).
  assert (H01 : 0 <= u <= 1) by (unfold draw_margin in Hu; lra).
  pose proof (z_of_draw_lower k u H01) as Hlo.
  pose proof (z_of_draw_range k u H01) as Hr.
  unfold draw_margin in *. split; [lra | nra].
Qed.

(** An instance: the draws 1/4 and 3/4 at concentration 5. *)
Lemma sample_z_range_witness :
  exists zs,
    sample_z 5 (Np.Array ([1 / 4; 3 / 4] ++ [1])) = Np.Array (zs ++ [1])
    /\ length zs = length [1 / 4; 3 / 4]
    /\ Forall (fun z => -1 + draw_margin <= z <= 1 /\ 0 <= 1 - z * z) zs.
Proof.
  apply (sample_z_range 5 [1 / 4; 3 / 4]).
  repeat constructor; unfold draw_margin; lra.
Defined.

(** X15.  For draws clear of the rounding edge, what [random] returns
    is inside the support of [logp]: handing the returned array to the
    [logp] of any distribution gives finite values, one per sample,
    never minus infinity. *)
Theorem random_samples_in_logp_support
        (self other : VonMisesFisher) (n : nat) (g : St.rng) :
  draws_clear_of_edge g n ->
  exists rows vals,
    fst (random self (Some n) g) = Ok rows
    /\ logp other (concat rows) = Ok (map Tt.Fin vals)
    /\ length vals = n
    /\ Forall (fun z => -1 + draw_margin <= z <= 1)
              (map (fun i => z_of_draw (kappa self) (zeta_draw g i)) (seq 0 n)).
Proof.
  intros Hd. rewrite random_sized. cbn [fst]. do 2 eexists.
  split; [reflexivity|].
  rewrite random_rows_flatten, logp_bound_form.
  unfold Pm.bound, Tt.switch. cbn [forallb].
  rewrite random_rows_in_support. cbn [andb].
  split; [reflexivity|].
  split; [now rewrite !length_map, length_seq|].
  apply Forall_forall. intros z Hz. apply in_map_iff in Hz.
  destruct Hz as (i & <- & Hi). apply in_seq in Hi.
  apply (z_clear_of_edge _ g n i Hd). lia.
Qed.

(** An instance: samples of a distribution at the pole, evaluated by a
    distribution on the equator. *)
Lemma random_samples_in_logp_support_witness :
  exists rows vals,
    fst (random (vmf (0, 0) 5) (Some 2%nat) rng_half) = Ok rows
    /\ logp (vmf (0, 90) 3) (concat rows) = Ok (map Tt.Fin vals)
    /\ length vals = 2%nat
    /\ Forall (fun z => -1 + draw_margin <= z <= 1)
              (map (fun i => z_of_draw (kappa (vmf (0, 0) 5))
                                       (zeta_draw rng_half i)) (seq 0 2)).
Proof.
  apply (random_samples_in_logp_support (vmf (0, 0) 5) (vmf (0, 90) 3) 2 rng_half),
        rng_half_clear.
Defined.

(** X16.  Sampling and density fit together: for draws clear of the
    rounding edge, the value [logp] of the same distribution gives to
    sample i of [random] is the density expression at dot product z,
    the z coordinate drawn for that sample. *)
Theorem logp_of_random_samples (lc : R * R) (k : R) (n : nat) (g : St.rng) :
  draws_clear_of_edge g n ->
  exists rows,
    fst (random (vmf lc k) (Some n) g) = Ok rows
    /\ logp (vmf lc k) (concat rows)
       = Ok (map (fun i => Tt.Fin (logp_of_dot k (z_of_draw k (zeta_draw g i))))
                 (seq 0 n)).
Proof.
  intros Hd. rewrite random_sized. cbn [fst]. eexists. split; [reflexivity|].
  rewrite random_rows_flatten, logp_bound_form.
  unfold Pm.bound, Tt.switch. cbn [forallb].
  rewrite random_rows_in_support. cbn [andb].
  f_equal. rewrite !map_map. apply map_ext_in. intros i Hi.
  apply in_seq in Hi. f_equal.
  rewrite vmf_log_density_of_dot.
  assert (Hu : 0 <= zeta_draw g i <= 1).
  { specialize (Hd i ltac:(lia)). unfold draw_margin in Hd. lra. }
  rewrite cartesian_sample_roundtrip by exact Hu.
  cbn [kappa mu vmf]. f_equal.
  unfold cartesian_sample, unrotated_sample. cbn [kappa vmf].
  apply (rotated_dot_mean lc k).
Qed.

(** An instance: two samples around the pole at concentration 5. *)
Lemma logp_of_random_samples_witness :
  exists rows,
    fst (random (vmf (0, 0) 5) (Some 2%nat) rng_half) = Ok rows
    /\ logp (vmf (0, 0) 5) (concat rows)
       = Ok (map (fun i => Tt.Fin (logp_of_dot 5 (z_of_draw 5 (zeta_draw rng_half i))))
                 (seq 0 2)).
Proof. apply (logp_of_random_samples (0, 0) 5 2 rng_half), rng_half_clear. Defined.

(** X19.  For draws clear of the rounding edge and every kappa,
    [random] returns, and for every sample: z lies in
    [-1 + draw_margin, 1]; the vector before rotation has norm 1; the
    rotation keeps the norm; and the returned pair of angles converts
    back to the rotated sample, a vector of norm 1. *)
Theorem samples_on_unit_sphere_clear_of_edge
        (self : VonMisesFisher) (n : nat) (g : St.rng) :
  draws_clear_of_edge g n ->
  exists rows,
    fst (random self (Some n) g) = Ok rows
    /\ length rows = n
    /\ forall i, (i < n)%nat ->
         let v := unrotated_sample (kappa self) (zeta_draw g i) (phi_draw g n i) in
         let s := cartesian_sample self g n i in
         let row := nth i rows [] in
         -1 + draw_margin <= z_of_draw (kappa self) (zeta_draw g i) <= 1
         /\ norm2 v = 1
         /\ nth i (fst (cartesian_sample_generator (rotation_of self)
                          (kappa self) (Some n) g)) [] = s
         /\ norm2 s = 1
         /\ row = lon_colat_of_sample s
         /\ unit_vector (nth 0 row 0, nth 1 row 0) = s.
Proof.
  intros Hd. rewrite random_sized. eexists. split; [reflexivity|].
  split; [now rewrite length_map, length_seq|].
  intros i Hi. cbv zeta. rewrite nth_map_seq by assumption.
  pose proof (z_clear_of_edge (kappa self) g n i Hd Hi) as Hz.
  assert (Hu : 0 <= zeta_draw g i <= 1).
  { specialize (Hd i Hi). unfold draw_margin in Hd. lra. }
  split; [exact Hz|].
  split; [apply unrotated_sample_norm; unfold draw_margin in Hz; lra|].
  split.
  { unfold cartesian_sample, rotation_of.
    destruct (rotation_rows 0 (snd (lon_colat self) * d2r)
                (fst (lon_colat self) * d2r)) as (r0 & r1 & r2 & E).
    rewrite E, generator_sized. cbn [fst].
    now rewrite nth_map_seq by assumption. }
  split; [apply cartesian_sample_unit; exact Hu|].
  split; [reflexivity|].
  unfold lon_colat_of_sample. cbn [nth].
  apply cartesian_sample_roundtrip. exact Hu.
Qed.

(** An instance: two samples around the mean (30, 60) at concentration 5. *)
Lemma samples_on_unit_sphere_clear_of_edge_witness :
  exists rows,
    fst (random (vmf (30, 60) 5) (Some 2%nat) rng_half) = Ok rows
    /\ length rows = 2%nat
    /\ norm2 (cartesian_sample (vmf (30, 60) 5) rng_half 2 0) = 1.
Proof.
  destruct (samples_on_unit_sphere_clear_of_edge (vmf (30, 60) 5) 2 rng_half
              (rng_half_clear 2)) as (rows & H1 & H2 & H3).
  exists rows. split; [exact H1|]. split; [exact H2|].
  apply (H3 0%nat). lia.
Defined.
